(** * Chemical reaction balancer: a shallow embedding of
      [chemical_reaction_balancer.py] and its verified properties.

    Conventions of the embedding.
    - A Python [str] is a Rocq [string]; its characters are the code points
      below 256.  On these, the regular-expression classes [[A-Z]], [[a-z]] and
      [\d] are the ASCII ranges, and [str.strip] removes the code points for
      which [str.isspace] holds.  Beyond this range [\d] and [int] also take
      the decimal digits of other scripts, each with its decimal value;
      [digit_val] is that value, and the statements about counts speak of
      the value of a digit, not of the character that writes it.
    - A Python [int] is a [Z] (unbounded).  The functions come in two layers:
      first as the language defines them, with conversions between [str] and
      [int] of any length; then, in the module [CPython], as the interpreter
      runs them by default, where a conversion of more than 4300 digits
      raises [ValueError].  The second layer agrees with the first on every
      input within the limit.
    - A Python [dict] is an association list in insertion order with unique
      keys; storing under a key that is present replaces its value in place.
    - A sympy [Rational] is a [Qc], a fraction in lowest terms with a positive
      denominator.
    - A call that can raise returns a [result]. *)

From Stdlib Require Import List ZArith QArith Qcanon String Ascii Bool Arith Lia.
From Stdlib Require Import DecimalString Sorted.
Import ListNotations.

Local Open Scope Z_scope.

(** ** Python values *)

Inductive py_exn : Type :=
| TypeError
| ZeroDivisionError
| ValueError.

Inductive result (A : Type) : Type :=
| Ok (a : A)
| Raise (e : py_exn).

Arguments Ok {A} a.
Arguments Raise {A} e.

Definition bind {A B : Type} (r : result A) (k : A -> result B) : result B :=
  match r with
  | Ok a => k a
  | Raise e => Raise e
  end.

Notation "x <- r ;; k" := (bind r (fun x => k))
  (at level 61, r at next level, right associativity).

Definition str := list ascii.

Definition code (c : ascii) : nat := nat_of_ascii c.

Definition between (lo hi : nat) (c : ascii) : bool :=
  (lo <=? code c)%nat && (code c <=? hi)%nat.

(** [[A-Z]], [[a-z]] and [\d]. *)
Definition is_upper : ascii -> bool := between 65 90.
Definition is_lower : ascii -> bool := between 97 122.
Definition is_digit : ascii -> bool := between 48 57.

(** [str.isspace] on one character. *)
Definition is_space (c : ascii) : bool :=
  between 9 13 c || between 28 32 c || (code c =? 133)%nat || (code c =? 160)%nat.

(** The longest prefix whose characters satisfy [p], and what follows it. *)
Fixpoint span (p : ascii -> bool) (s : str) : str * str :=
  match s with
  | c :: r =>
      if p c then let (a, b) := span p r in (c :: a, b) else ([], s)
  | [] => ([], [])
  end.

Fixpoint lstrip (s : str) : str :=
  match s with
  | c :: r => if is_space c then lstrip r else s
  | [] => []
  end.

(** [s.strip()]. *)
Definition strip (s : str) : str := rev (lstrip (rev (lstrip s))).

Fixpoint is_prefix (p s : str) : bool :=
  match p, s with
  | [], _ => true
  | a :: p', b :: s' => Ascii.eqb a b && is_prefix p' s'
  | _ :: _, [] => false
  end.

(** [s.split(sep)] for a non-empty [sep]: the pieces between the leftmost
    non-overlapping occurrences of [sep].  [cur] holds, reversed, the piece
    being read. *)
Fixpoint split_from (fuel : nat) (sep s cur : str) : list str :=
  match fuel with
  | O => [rev cur]
  | S f =>
      match s with
      | [] => [rev cur]
      | c :: r =>
          if is_prefix sep s
          then rev cur :: split_from f sep (skipn (List.length sep) s) []
          else split_from f sep r (c :: cur)
      end
  end.

Definition split (sep s : str) : list str := split_from (List.length s) sep s [].

(** The decimal value of a digit. *)
Definition digit_val (c : ascii) : Z := Z.of_nat (code c) - 48.

(** The integer that a string of decimal digits, of any length, writes: the
    value of [int(count)] where the interpreter converts the string. *)
Definition int_of_digits (ds : str) : Z :=
  fold_left (fun acc c => 10 * acc + digit_val c) ds 0.

(** The decimal writing of an integer, of any length: the value of [str(n)]
    where the interpreter converts the integer. *)
Definition str_of_int (n : Z) : str :=
  list_ascii_of_string (NilZero.string_of_int (Z.to_int n)).

(** [sep.join(parts)]. *)
Fixpoint join (sep : str) (parts : list str) : str :=
  match parts with
  | [] => []
  | [p] => p
  | p :: ps => p ++ sep ++ join sep ps
  end.

(** ** Dictionaries *)

Definition dict := list (string * Z).

Fixpoint dict_set (d : dict) (k : string) (v : Z) : dict :=
  match d with
  | [] => [(k, v)]
  | (k', v') :: d' =>
      if String.eqb k' k then (k', v) :: d' else (k', v') :: dict_set d' k v
  end.

(** [d.get(k, default)]. *)
Fixpoint dict_get (d : dict) (k : string) (default : Z) : Z :=
  match d with
  | [] => default
  | (k', v') :: d' => if String.eqb k' k then v' else dict_get d' k default
  end.

Definition dict_keys (d : dict) : list string := map fst d.

(** ** parse_compound *)

(** [re.findall] with the pattern of [parse_compound]: an upper-case letter
    and the lower-case letters after it (first group), then the digits after
    those (second group, possibly empty).  The matches come from left to
    right, each as the pair of its two groups; a position where no match
    starts is passed over. *)
Fixpoint findall_from (fuel : nat) (s : str) : list (str * str) :=
  match fuel with
  | O => []
  | S f =>
      match s with
      | [] => []
      | c :: r =>
          if is_upper c then
            let (lows, r1) := span is_lower r in
            let (digs, r2) := span is_digit r1 in
            (c :: lows, digs) :: findall_from f r2
          else findall_from f r
      end
  end.

Definition findall (s : str) : list (str * str) := findall_from (List.length s) s.

(** The value of [int(count) if count else 1], for a count of any
    length. *)
Definition count_of (count : str) : Z :=
  match count with
  | [] => 1
  | _ :: _ => int_of_digits count
  end.

(** The dictionary comprehension: the pairs are stored from left to right. *)
Definition dict_of_pairs (elements : list (str * str)) : dict :=
  fold_left
    (fun d ec => dict_set d (string_of_list_ascii (fst ec)) (count_of (snd ec)))
    elements [].

Definition parse_compound (compound : string) : dict :=
  dict_of_pairs (findall (list_ascii_of_string compound)).

(** ** parse_reaction *)

Definition arrow : str := list_ascii_of_string "->".
Definition plus : str := list_ascii_of_string "+".

Definition compounds_of (side : str) : list string :=
  map (fun compound => string_of_list_ascii (strip compound)) (split plus side).

(** [None] stands for the pair [(None, None)] returned when unpacking the
    split into two names raises [ValueError]. *)
Definition parse_reaction (reaction : string)
  : option (list string * list string) :=
  match split arrow (list_ascii_of_string reaction) with
  | [lhs; rhs] => Some (compounds_of lhs, compounds_of rhs)
  | _ => None
  end.

(** ** get_elements *)

(** [elements.update(keys)] on a set held as a duplicate-free list. *)
Definition set_add (x : string) (s : list string) : list string :=
  if existsb (String.eqb x) s then s else s ++ [x].

Definition set_update (s : list string) (keys : list string) : list string :=
  fold_left (fun acc k => set_add k acc) keys s.

Fixpoint insert_sorted (x : string) (l : list string) : list string :=
  match l with
  | [] => [x]
  | y :: l' => if String.leb x y then x :: l else y :: insert_sorted x l'
  end.

(** [sorted(elements)]. *)
Definition sorted (l : list string) : list string :=
  fold_right insert_sorted [] l.

Definition get_elements (reactants products : list string) : list string :=
  sorted
    (fold_left (fun elements compound =>
                  set_update elements (dict_keys (parse_compound compound)))
               (reactants ++ products) []).

(** ** build_matrix *)

Definition build_row (reactants products : list string) (element : string)
  : list Z :=
  map (fun compound => dict_get (parse_compound compound) element 0) reactants
  ++ map (fun compound => - dict_get (parse_compound compound) element 0)
       products.

Definition build_matrix (reactants products elements : list string)
  : list (list Z) :=
  map (build_row reactants products) elements.

(** ** Exact linear algebra: [Matrix(...).nullspace()]

    [Matrix] and its method [nullspace] belong to sympy, which is not part
    of the sources.  They are modelled here as the specification describes
    them: row reduction to reduced row-echelon form over exact fractions,
    then one basis vector for each free column.  The reduced row-echelon
    form of a matrix is unique, so the order in which the row operations are
    carried out does not show in the result. *)

Definition vec := list Qc.

Definition Qc_of_Z (z : Z) : Qc := Q2Qc (inject_Z z).

Definition entry (r : vec) (j : nat) : Qc := nth j r 0%Qc.

Definition is_zero (x : Qc) : bool := (Qnum x =? 0)%Z.

Fixpoint zip_with {A B C : Type} (f : A -> B -> C) (l1 : list A) (l2 : list B)
  : list C :=
  match l1, l2 with
  | a :: l1', b :: l2' => f a b :: zip_with f l1' l2'
  | _, _ => []
  end.

(** [l[i] = x] for an index in range. *)
Fixpoint list_set {A : Type} (l : list A) (i : nat) (x : A) : list A :=
  match l, i with
  | [], _ => []
  | _ :: t, O => x :: t
  | h :: t, S i' => h :: list_set t i' x
  end.

Fixpoint dot (r v : vec) : Qc :=
  match r, v with
  | x :: r', y :: v' => (x * y + dot r' v')%Qc
  | _, _ => 0%Qc
  end.

Definition row_scale (k : Qc) (r : vec) : vec := map (Qcmult k) r.

(** The row operation [r := r - k * p]. *)
Definition row_sub (r : vec) (k : Qc) (p : vec) : vec :=
  zip_with (fun x y => (x - k * y)%Qc) r p.

(** Clears column [c] of [r] with the normalised pivot row [piv]. *)
Definition eliminate (piv : vec) (c : nat) (r : vec) : vec :=
  row_sub r (entry r c) piv.

(** The first row with a non-zero entry in column [c], with the rows before
    and after it. *)
Fixpoint find_pivot (c : nat) (rows : list vec)
  : option (list vec * vec * list vec) :=
  match rows with
  | [] => None
  | r :: rs =>
      if is_zero (entry r c) then
        match find_pivot c rs with
        | Some (before, p, after) => Some (r :: before, p, after)
        | None => None
        end
      else Some ([], r, rs)
  end.

(** The rows below the pivot row once it has been exchanged with the top
    row. *)
Definition swap_rest (before after : list vec) : list vec :=
  match before with
  | [] => after
  | top :: mid => mid ++ top :: after
  end.

(** The state of the reduction: the pivot rows found so far, each with its
    pivot column, and the rows below them. *)
Definition rref_state : Type := list (nat * vec) * list vec.

(** Modelled from the spec: one column of the reduction of sympy's
    [Matrix.rref].  When a row below the pivot rows has a non-zero entry in
    column [c], the first such row is exchanged with the top one, divided by
    that entry, and used to clear column [c] in every other row; otherwise
    the column is free and the state is left as it is. *)
Definition rref_step (st : rref_state) (c : nat) : rref_state :=
  match find_pivot c (snd st) with
  | None => st
  | Some (before, row, after) =>
      let piv := row_scale (/ entry row c)%Qc row in
      (map (fun pr => (fst pr, eliminate piv c (snd pr))) (fst st) ++ [(c, piv)],
       map (eliminate piv c) (swap_rest before after))
  end.

Record Matrix : Type := mkMatrix { m_rows : list vec; m_cols : nat }.

(** Modelled from the spec: the constructor [Matrix] of sympy, for a list of
    rows of integers.  The entries become exact fractions; the number of
    columns is the length of the first row, and 0 when there is no row. *)
Definition Matrix_of (matrix : list (list Z)) : Matrix :=
  {| m_rows := map (map Qc_of_Z) matrix;
     m_cols := match matrix with [] => O | r :: _ => List.length r end |}.

(** Modelled from the spec: the loop of sympy's [Matrix.rref] over the
    columns, from the left. *)
Definition rref_run (M : Matrix) : rref_state :=
  fold_left rref_step (seq 0 (m_cols M)) ([], m_rows M).

(** Modelled from the spec: [Matrix.rref] belongs to sympy, which is not part
    of the sources.  Gaussian elimination to reduced row-echelon form over
    exact fractions, column by column from the left; the result is the
    reduced matrix and the tuple of its pivot columns. *)
Definition rref (M : Matrix) : list vec * list nat :=
  let st := rref_run M in
  (map snd (fst st) ++ snd st, map fst (fst st)).

(** One step of the back substitution: the pivot variable of the row [pr]
    loses the entry of that row in the free column [j]. *)
Definition back_substitute (j : nat) (v : vec) (pr : nat * vec) : vec :=
  list_set v (fst pr) (entry v (fst pr) - entry (snd pr) j)%Qc.

(** Modelled from the spec: the basis vector that sympy's
    [Matrix.nullspace] builds for a free column.  That variable is 1, the
    other free variables are 0, and each pivot variable is read off its
    pivot row. *)
Definition basis_vector (cols : nat) (reduced : list vec) (pivots : list nat)
  (free_var : nat) : vec :=
  fold_left (back_substitute free_var) (combine pivots reduced)
    (list_set (repeat 0%Qc cols) free_var 1%Qc).

(** Modelled from the spec: [Matrix.nullspace] belongs to sympy, which is not
    part of the sources.  One basis vector for each column without a pivot,
    in column order. *)
Definition nullspace (M : Matrix) : list vec :=
  let (reduced, pivots) := rref M in
  let free_vars :=
    filter (fun i => negb (existsb (Nat.eqb i) pivots)) (seq 0 (m_cols M)) in
  map (basis_vector (m_cols M) reduced pivots) free_vars.

(** ** simplify_coefficients *)

(** The local function [lcm]; it is only applied to positive integers, so
    the divisor is not zero. *)
Definition lcm (a b : Z) : Z := Z.abs (a * b) / Z.gcd a b.

(** [f.denominator]. *)
Definition denominator (f : Qc) : Z := Zpos (Qden f).

(** [int(q)]: truncation towards zero. *)
Definition int_of_Qc (q : Qc) : Z := Z.quot (Qnum q) (Zpos (Qden q)).

(** [reduce(gcd, l)]: without an initial value an empty list raises, and a
    list of one element is that element. *)
Definition reduce_gcd (l : list Z) : result Z :=
  match l with
  | [] => Raise TypeError
  | x :: xs => Ok (fold_left Z.gcd xs x)
  end.

(** [c // g]. *)
Definition floordiv (c g : Z) : result Z :=
  if (g =? 0)%Z then Raise ZeroDivisionError else Ok (c / g).

Fixpoint map_result {A B : Type} (f : A -> result B) (l : list A)
  : result (list B) :=
  match l with
  | [] => Ok []
  | a :: l' => b <- f a ;; bs <- map_result f l' ;; Ok (b :: bs)
  end.

Definition simplify_coefficients (coefficients : vec) : result (list Z) :=
  let denominators := map (fun f => Z.abs (denominator f)) coefficients in
  let scale_factor := fold_left lcm denominators 1 in
  let scaled_coeffs :=
    map (fun c => int_of_Qc (c * Qc_of_Z scale_factor)%Qc) coefficients in
  gcd_coeffs <- reduce_gcd scaled_coeffs ;;
  map_result (fun c => floordiv c gcd_coeffs) scaled_coeffs.

(** ** balance_reaction *)

(** What [balance_reaction] has computed when it builds its answer. *)
Inductive outcome : Type :=
| InvalidFormat
| CannotBalance
| Balanced (reactants products : list string)
           (reactant_coeffs product_coeffs : list Z).

(** The body of [balance_reaction] up to the formatting of its answer. *)
Definition balance (reaction : string) : result outcome :=
  match parse_reaction reaction with
  | None => Ok InvalidFormat
  | Some (reactants, products) =>
      let elements := get_elements reactants products in
      let matrix := build_matrix reactants products elements in
      match nullspace (Matrix_of matrix) with
      | [] => Ok CannotBalance
      | v :: _ =>
          coefficients <- simplify_coefficients v ;;
          let num_reactants := List.length reactants in
          Ok (Balanced reactants products
                (firstn num_reactants coefficients)
                (skipn num_reactants coefficients))
      end
  end.

Definition term (coeff : Z) (compound : string) : str :=
  str_of_int coeff ++ list_ascii_of_string " " ++ list_ascii_of_string compound.

Definition side (coeffs : list Z) (compounds : list string) : str :=
  join (list_ascii_of_string " + ") (zip_with term coeffs compounds).

Definition render (o : outcome) : string :=
  match o with
  | InvalidFormat =>
      "Invalid reaction format. Use '->' to separate reactants and products."
  | CannotBalance => "This reaction cannot be balanced."
  | Balanced reactants products reactant_coeffs product_coeffs =>
      (* each side has as many coefficients as compounds *)
      string_of_list_ascii
        (side reactant_coeffs reactants
         ++ list_ascii_of_string " -> " ++ side product_coeffs products)
  end.

Definition balance_reaction (reaction : string) : result string :=
  o <- balance reaction ;; Ok (render o).

(** * Vocabulary of the properties *)

(** ** Row reduction *)

Definition delta (p q : nat) : Qc := (if Nat.eqb p q then 1 else 0)%Qc.

(** What holds of the state once the columns before [c] have been reduced,
    for a matrix of [n] columns whose rows are [rows0]: the rows keep their
    length; the pivot columns are distinct and lie before [c]; a pivot row
    has 1 at its pivot and 0 at the other pivots; the rows below are 0
    before column [c]; and a vector annihilated by the rows of the state is
    annihilated by the rows of the matrix. *)
Record rref_inv (n : nat) (rows0 : list vec) (c : nat) (st : rref_state)
  : Prop := {
  inv_len_done : forall p r, In (p, r) (fst st) -> List.length r = n;
  inv_len_rest : forall r, In r (snd st) -> List.length r = n;
  inv_piv_lt : forall p r, In (p, r) (fst st) -> (p < c)%nat;
  inv_nodup : NoDup (map fst (fst st));
  inv_unit : forall p r p' r',
      In (p, r) (fst st) -> In (p', r') (fst st) -> entry r' p = delta p p';
  inv_rest_zero : forall r k, In r (snd st) -> (k < c)%nat -> entry r k = 0%Qc;
  inv_sound : forall v,
      (forall p r, In (p, r) (fst st) -> dot r v = 0%Qc) ->
      (forall r, In r (snd st) -> dot r v = 0%Qc) ->
      forall r, In r rows0 -> dot r v = 0%Qc
}.

(** What the pivot rows take away from the dot product with [r]. *)
Definition pivot_sum (j : nat) (r : vec) (done : list (nat * vec)) : Qc :=
  fold_right (fun pr acc => (entry (snd pr) j * entry r (fst pr) + acc)%Qc)
    0%Qc done.

(** Every row has as many entries as the matrix has columns. *)
Definition well_formed (M : Matrix) : Prop :=
  forall r, In r (m_rows M) -> List.length r = m_cols M.


(** ** Strings *)

(** [sep in s]: the separator occurs in the string. *)
Fixpoint contains (sep s : str) : bool :=
  is_prefix sep s
  || match s with
     | [] => false
     | _ :: r => contains sep r
     end.

(** ** Normalisation *)

(** The integer that [int(c * scale_factor)] yields. *)
Definition scaled (L : Z) (c : Qc) : Z := Qnum c * (L / denominator c).

(** The scale factor computed by [simplify_coefficients]. *)
Definition scale_factor (coefficients : vec) : Z :=
  fold_left lcm (map (fun f => Z.abs (denominator f)) coefficients) 1.

(** The greatest common divisor of the entries of a list. *)
Definition gcd_list (l : list Z) : Z := fold_right Z.gcd 0 l.

(** The value of [reduce(gcd, l)] on a non-empty list. *)
Definition divisor (l : list Z) : Z :=
  match l with
  | [] => 0
  | x :: xs => fold_left Z.gcd xs x
  end.

(** What [simplify_coefficients] returns when it does not raise. *)
Definition simplified (v : vec) : list Z :=
  let l := map (scaled (scale_factor v)) v in
  map (fun c => c / divisor l) l.

(** ** Conservation *)

Fixpoint dotZ (r l : list Z) : Z :=
  match r, l with
  | x :: r', y :: l' => x * y + dotZ r' l'
  | _, _ => 0
  end.

(** The atoms of [element] on one side of the reaction as the matrix counts
    them: the sum, over the compounds of that side, of the coefficient times
    the count of [element] in the mapping of [parse_compound]. *)
Definition atoms (element : string) (coeffs : list Z) (compounds : list string)
  : Z :=
  fold_right Z.add 0
    (zip_with (fun c compound => c * dict_get (parse_compound compound) element 0)
       coeffs compounds).

(** ** Further vocabulary *)

(** The order of [sorted] on strings. *)
Definition string_le (a b : string) : Prop := String.leb a b = true.

(** The key and the count that a match of [findall] stands for. *)
Definition symbol_of (match_ : str * str) : string :=
  string_of_list_ascii (fst match_).

Definition entry_of (match_ : str * str) : string * Z :=
  (symbol_of match_, count_of (snd match_)).

(** The count of the last match of [symbol], if there is one. *)
Definition last_count (matches : list (str * str)) (symbol : string)
  : option Z :=
  fold_left
    (fun found m =>
       if String.eqb (symbol_of m) symbol then Some (count_of (snd m))
       else found)
    matches None.

(** ** The interactive loop *)

(** [str.lower] on one character: the upper-case letters below code point
    256 are [A] to [Z] and the accented capital letters 192 to 222, but for
    the multiplication sign 215; each has its lower-case letter 32 further. *)
Definition lower_char (c : ascii) : ascii :=
  if is_upper c || between 192 214 c || between 216 222 c
  then ascii_of_nat (code c + 32)
  else c.

(** [s.lower()]. *)
Definition lower (s : string) : string :=
  string_of_list_ascii (map lower_char (list_ascii_of_string s)).

(** [reaction.lower() in ["exit", "quit"]]. *)
Definition is_exit (reaction : string) : bool :=
  existsb (String.eqb (lower reaction)) ["exit"%string; "quit"%string].

(** What the program writes: a line with [print], or the prompt of
    [input]. *)
Inductive event : Type :=
| Printed (line : string)
| Prompted (text : string).

(** How the program ends: after [break]; when [input] finds no line left and
    raises [EOFError]; or with an exception of [balance_reaction]. *)
Inductive ending : Type :=
| Finished
| EndOfInput
| Failed (e : py_exn).

Definition prompt : event := Prompted "Reaction: ".

(** [input("Reaction: ").strip()] on the line read. *)
Definition stripped (line : string) : string :=
  string_of_list_ascii (strip (list_ascii_of_string line)).

(** ** The counts that a formula holds *)

(** The count of [element] that the formula [compound] holds: the sum of the
    counts of all the matches of its symbol. *)
Definition formula_count (compound : string) (element : string) : Z :=
  fold_right
    (fun m total =>
       if String.eqb (symbol_of m) element then count_of (snd m) + total
       else total)
    0 (findall (list_ascii_of_string compound)).

(** The atoms of [element] that one side of the reaction holds: the sum,
    over the compounds of that side, of the coefficient times the count that
    the formula holds. *)
Definition atoms_held (element : string) (coeffs : list Z)
  (compounds : list string) : Z :=
  fold_right Z.add 0
    (zip_with (fun c compound => c * formula_count compound element)
       coeffs compounds).

(** No symbol matches twice in the formula. *)
Definition distinct_symbols (compound : string) : Prop :=
  NoDup (map symbol_of (findall (list_ascii_of_string compound))).

(** * The code under the interpreter's limit on conversions

    The definitions so far compute with integers of any size, as the
    language defines them.  CPython, by default, refuses to convert between
    [int] and [str] more than 4300 digits ([sys.get_int_max_str_digits()]):
    [int(count)] and the formatting of a coefficient then raise
    [ValueError].  The module [CPython] is the code with this limit. *)

(** A loop that stops at the first exception. *)
Fixpoint fold_result {A B : Type} (f : A -> B -> result A) (l : list B) (a : A)
  : result A :=
  match l with
  | [] => Ok a
  | b :: l' => a' <- f a b ;; fold_result f l' a'
  end.

Module CPython.

(** The default of [sys.get_int_max_str_digits()]. *)
Definition max_str_digits : Z := 4300.

(** [int(count)] on a string of decimal digits. *)
Definition int_of_str (ds : str) : result Z :=
  if max_str_digits <? Z.of_nat (List.length ds)
  then Raise ValueError
  else Ok (int_of_digits ds).

(** [int(count) if count else 1]. *)
Definition count_of (count : str) : result Z :=
  match count with
  | [] => Ok 1
  | _ :: _ => int_of_str count
  end.

(** The dictionary comprehension: for each pair, from left to right, the
    count is converted and stored under the symbol. *)
Definition dict_of_pairs (elements : list (str * str)) : result dict :=
  fold_result
    (fun d ec =>
       count <- count_of (snd ec) ;;
       Ok (dict_set d (string_of_list_ascii (fst ec)) count))
    elements [].

Definition parse_compound (compound : string) : result dict :=
  dict_of_pairs (findall (list_ascii_of_string compound)).

Definition get_elements (reactants products : list string)
  : result (list string) :=
  elements <-
    fold_result
      (fun elements compound =>
         d <- parse_compound compound ;;
         Ok (set_update elements (dict_keys d)))
      (reactants ++ products) [] ;;
  Ok (sorted elements).

(** One turn of the outer loop of [build_matrix]: the row of [element]. *)
Definition build_row (reactants products : list string) (element : string)
  : result (list Z) :=
  left_part <-
    map_result (fun compound =>
                  d <- parse_compound compound ;; Ok (dict_get d element 0))
      reactants ;;
  right_part <-
    map_result (fun compound =>
                  d <- parse_compound compound ;; Ok (- dict_get d element 0))
      products ;;
  Ok (left_part ++ right_part).

Definition build_matrix (reactants products elements : list string)
  : result (list (list Z)) :=
  map_result (build_row reactants products) elements.

(** [str(n)], as the f-strings format a coefficient: the digits of the
    number are counted without its sign. *)
Definition str_of_int (n : Z) : result str :=
  let s := str_of_int n in
  let digits := if n <? 0 then pred (List.length s) else List.length s in
  if max_str_digits <? Z.of_nat digits then Raise ValueError else Ok s.

Definition term (coeff : Z) (compound : string) : result str :=
  s <- str_of_int coeff ;;
  Ok (s ++ list_ascii_of_string " " ++ list_ascii_of_string compound).

Definition side (coeffs : list Z) (compounds : list string) : result str :=
  terms <- map_result (fun p => term (fst p) (snd p))
             (combine coeffs compounds) ;;
  Ok (join (list_ascii_of_string " + ") terms).

(** The body of [balance_reaction] up to the formatting of its answer. *)
Definition balance (reaction : string) : result outcome :=
  match parse_reaction reaction with
  | None => Ok InvalidFormat
  | Some (reactants, products) =>
      elements <- get_elements reactants products ;;
      matrix <- build_matrix reactants products elements ;;
      match nullspace (Matrix_of matrix) with
      | [] => Ok CannotBalance
      | v :: _ =>
          coefficients <- simplify_coefficients v ;;
          let num_reactants := List.length reactants in
          Ok (Balanced reactants products
                (firstn num_reactants coefficients)
                (skipn num_reactants coefficients))
      end
  end.

Definition render (o : outcome) : result string :=
  match o with
  | InvalidFormat =>
      Ok "Invalid reaction format. Use '->' to separate reactants and products."%string
  | CannotBalance => Ok "This reaction cannot be balanced."%string
  | Balanced reactants products reactant_coeffs product_coeffs =>
      balanced_reactants <- side reactant_coeffs reactants ;;
      balanced_products <- side product_coeffs products ;;
      Ok (string_of_list_ascii
            (balanced_reactants ++ list_ascii_of_string " -> "
             ++ balanced_products))
  end.

Definition balance_reaction (reaction : string) : result string :=
  o <- balance reaction ;; render o.

(** The loop [while True] of the main program, on the lines that the input
    still holds. *)
Fixpoint loop (lines : list string) : list event * ending :=
  match lines with
  | [] => ([prompt], EndOfInput)
  | line :: rest =>
      let reaction := stripped line in
      if is_exit reaction then
        ([prompt; Printed "Program stopped."], Finished)
      else
        match balance_reaction reaction with
        | Raise e => ([prompt], Failed e)
        | Ok result =>
            let (out, e) := loop rest in
            (prompt :: Printed ("Balanced Reaction: " ++ result) :: out, e)
        end
  end.

(** The main program, on the lines of its input. *)
Definition main (lines : list string) : list event * ending :=
  let (out, e) := loop lines in
  (Printed "Chemical Reaction Balancer"
   :: Printed "Enter a chemical reaction to balance (e.g., H2 + O2 -> H2O):"
   :: out, e).

End CPython.

(** ** Vocabulary of the limit *)

(** The count has no more digits than [int] accepts. *)
Definition count_within (count : str) : bool :=
  Z.of_nat (List.length count) <=? CPython.max_str_digits.

(** Every count of the formula is within the limit. *)
Definition compound_within (compound : string) : bool :=
  forallb (fun m => count_within (snd m))
    (findall (list_ascii_of_string compound)).

(** What the program writes for a line that is not a request to stop and on
    which [balance_reaction] returns. *)
Definition answer (line : string) : list event :=
  match CPython.balance_reaction (stripped line) with
  | Ok result => [prompt; Printed ("Balanced Reaction: " ++ result)]
  | Raise _ => [prompt]
  end.


(** * Properties *)

(** ** Vectors and rows *)

Section Rows.

Local Open Scope Qc_scope.

Lemma is_zero_spec (x : Qc) : is_zero x = true <-> x = 0.
Proof.
  unfold is_zero. rewrite Z.eqb_eq. split.
  - intro H. apply Qc_is_canon. unfold Qeq. simpl. rewrite H. reflexivity.
  - intro H. subst x. reflexivity.
Qed.

Lemma is_zero_false (x : Qc) : is_zero x = false <-> x <> 0.
Proof.
  rewrite <- is_zero_spec. destruct (is_zero x); split; congruence.
Qed.

Lemma dot_nil_r (r : vec) : dot r [] = 0.
Proof. destruct r; reflexivity. Qed.

Lemma dot_row_scale (k : Qc) (r v : vec) :
  dot (row_scale k r) v = k * dot r v.
Proof.
  revert v. induction r as [|x r IH]; intros [|y v]; simpl; try ring.
  rewrite IH. ring.
Qed.

Lemma dot_row_sub (k : Qc) (r p v : vec) :
  List.length r = List.length p ->
  dot (row_sub r k p) v = dot r v - k * dot p v.
Proof.
  revert p v. induction r as [|x r IH]; intros [|y p] [|z v] H;
    simpl in *; try discriminate; try ring.
  unfold row_sub in IH. rewrite IH by congruence. ring.
Qed.

Lemma length_row_scale (k : Qc) (r : vec) :
  List.length (row_scale k r) = List.length r.
Proof. apply length_map. Qed.

Lemma length_row_sub (k : Qc) (r p : vec) :
  List.length r = List.length p ->
  List.length (row_sub r k p) = List.length r.
Proof.
  revert p. induction r as [|x r IH]; intros [|y p] H;
    simpl in *; try discriminate; auto.
  unfold row_sub in IH. rewrite IH; congruence.
Qed.

Lemma entry_row_scale (k : Qc) (r : vec) (j : nat) :
  entry (row_scale k r) j = k * entry r j.
Proof.
  unfold entry, row_scale. revert j.
  induction r as [|x r IH]; intros [|j]; simpl; auto; ring.
Qed.

Lemma entry_row_sub (k : Qc) (r p : vec) (j : nat) :
  List.length r = List.length p ->
  entry (row_sub r k p) j = entry r j - k * entry p j.
Proof.
  unfold entry, row_sub. revert p j.
  induction r as [|x r IH]; intros [|y p] [|j] H;
    simpl in *; try discriminate; auto; ring.
Qed.

Lemma entry_eliminate (piv r : vec) (c j : nat) :
  List.length r = List.length piv ->
  entry (eliminate piv c r) j = entry r j - entry r c * entry piv j.
Proof. intro H. unfold eliminate. now rewrite entry_row_sub. Qed.

Lemma length_list_set (A : Type) (l : list A) (i : nat) (x : A) :
  List.length (list_set l i x) = List.length l.
Proof.
  revert i. induction l as [|h t IH]; intros [|i]; simpl; auto.
Qed.

Lemma dot_list_set (r v : vec) (i : nat) (x : Qc) :
  List.length r = List.length v ->
  dot r (list_set v i x) = dot r v + entry r i * (x - entry v i).
Proof.
  unfold entry. revert v i.
  induction r as [|a r IH]; intros [|b v] [|i] H;
    simpl in *; try discriminate; try ring.
  rewrite IH by congruence. ring.
Qed.

Lemma dot_repeat_zero (r : vec) (n : nat) : dot r (repeat 0 n) = 0.
Proof.
  revert n. induction r as [|a r IH]; intros [|n]; simpl; auto.
  rewrite IH. ring.
Qed.

Lemma entry_repeat_zero (n j : nat) : entry (repeat 0 n) j = 0.
Proof.
  unfold entry. revert j. induction n as [|n IH]; intros [|j]; simpl; auto.
Qed.

Lemma dot_zero_row (r v : vec) :
  (forall k, (k < List.length r)%nat -> entry r k = 0) -> dot r v = 0.
Proof.
  unfold entry. revert v. induction r as [|a r IH]; intros [|b v] H; simpl; auto.
  assert (Ha : a = 0) by (apply (H O); simpl; lia).
  rewrite IH, Ha; [ring|].
  intros k Hk. apply (H (S k)). simpl. lia.
Qed.

End Rows.

(** ** Row reduction *)

Section Reduction.

Local Open Scope Qc_scope.

(** The number of columns and the rows of the matrix being reduced. *)
Variable n : nat.
Variable rows0 : list vec.

Lemma find_pivot_none (c : nat) (rows : list vec) :
  find_pivot c rows = None -> forall r, In r rows -> entry r c = 0.
Proof.
  induction rows as [|r0 rows IH]; simpl; intros H r Hin; [contradiction|].
  destruct (is_zero (entry r0 c)) eqn:Hz; [|discriminate].
  destruct (find_pivot c rows) as [[[b p] a]|] eqn:Hf; [discriminate|].
  destruct Hin as [<-|Hin]; [now apply is_zero_spec | now apply IH].
Qed.

Lemma find_pivot_some (c : nat) (rows before after : list vec) (row : vec) :
  find_pivot c rows = Some (before, row, after) ->
  rows = before ++ row :: after /\ entry row c <> 0.
Proof.
  revert before. induction rows as [|r0 rows IH]; simpl; intros before H;
    [discriminate|].
  destruct (is_zero (entry r0 c)) eqn:Hz.
  - destruct (find_pivot c rows) as [[[b p] a]|] eqn:Hf; [|discriminate].
    injection H as <- <- <-. destruct (IH b eq_refl) as [-> Hnz].
    split; [reflexivity | assumption].
  - injection H as <- <- <-. split; [reflexivity | now apply is_zero_false].
Qed.

Lemma in_swap_rest (before after : list vec) (r : vec) :
  In r (swap_rest before after) <-> In r (before ++ after).
Proof.
  destruct before as [|top mid]; simpl; [tauto|].
  rewrite !in_app_iff. simpl. tauto.
Qed.

Lemma rref_inv_init :
  (forall r, In r rows0 -> List.length r = n) ->
  rref_inv n rows0 0 ([], rows0).
Proof.
  intro Hlen. constructor; simpl; try contradiction; auto.
  - constructor.
  - intros. lia.
Qed.

Lemma in_eliminated (piv : vec) (c p : nat) (r : vec) (done : list (nat * vec)) :
  In (p, r) (map (fun pr => (fst pr, eliminate piv c (snd pr))) done ++ [(c, piv)])
  <-> (exists r0, In (p, r0) done /\ r = eliminate piv c r0)
      \/ (p = c /\ r = piv).
Proof.
  rewrite in_app_iff, in_map_iff. simpl. split.
  - intros [[[p0 r0] [Heq Hin]]|[Heq|[]]].
    + injection Heq as <- <-. left. now exists r0.
    + injection Heq as <- <-. now right.
  - intros [[r0 [Hin ->]]|[-> ->]].
    + left. now exists (p, r0).
    + right. now left.
Qed.

Lemma delta_same (p : nat) : delta p p = 1.
Proof. unfold delta. now rewrite Nat.eqb_refl. Qed.

Lemma delta_diff (p q : nat) : p <> q -> delta p q = 0.
Proof. unfold delta. intro H. apply Nat.eqb_neq in H. now rewrite H. Qed.

Lemma rref_step_inv (c : nat) (st : rref_state) :
  rref_inv n rows0 c st -> rref_inv n rows0 (S c) (rref_step st c).
Proof.
  intros [Hld Hlr Hlt Hnd Hun Hrz Hso]. destruct st as [done rest].
  unfold rref_step. simpl in *.
  destruct (find_pivot c rest) as [[[before row] after]|] eqn:Hf.
  - destruct (find_pivot_some _ _ _ _ _ Hf) as [Hrest Hx].
    set (x := entry row c) in *.
    set (piv := row_scale (/ x) row).
    assert (Hrow : In row rest) by (rewrite Hrest, in_app_iff; simpl; auto).
    assert (Hothers : forall r, In r (swap_rest before after) -> In r rest).
    { intros r Hr. apply in_swap_rest in Hr. rewrite Hrest.
      rewrite in_app_iff in *. simpl. tauto. }
    assert (Hlp : List.length piv = n).
    { unfold piv. rewrite length_row_scale. auto. }
    assert (Hpc : entry piv c = 1).
    { unfold piv. rewrite entry_row_scale. fold x. now apply Qcmult_inv_l. }
    assert (Hpz : forall k, (k < c)%nat -> entry piv k = 0).
    { intros k Hk. unfold piv. rewrite entry_row_scale, (Hrz row k Hrow Hk).
      ring. }
    assert (Hrowpiv : forall v, dot row v = x * dot piv v).
    { intro v. unfold piv. rewrite dot_row_scale, Qcmult_assoc.
      rewrite Qcmult_inv_r by assumption. ring. }
    constructor; simpl.
    + intros p r Hin. apply in_eliminated in Hin.
      destruct Hin as [[r0 [Hin ->]]|[-> ->]]; auto.
      unfold eliminate. rewrite length_row_sub; [eauto|].
      rewrite Hlp. eauto.
    + intros r Hin. apply in_map_iff in Hin. destruct Hin as [r0 [<- Hin]].
      unfold eliminate. rewrite length_row_sub; [auto|]. rewrite Hlp. auto.
    + intros p r Hin. apply in_eliminated in Hin.
      destruct Hin as [[r0 [Hin ->]]|[-> ->]]; [|lia].
      specialize (Hlt _ _ Hin). lia.
    + rewrite map_app, map_map. simpl. rewrite map_ext with (g := fst) by auto.
      apply NoDup_app; [assumption | repeat constructor; simpl; tauto |].
      intros p Hin [<-|[]]. apply in_map_iff in Hin.
      destruct Hin as [[p0 r0] [Heq Hin]]. simpl in Heq. subst p0.
      specialize (Hlt _ _ Hin). lia.
    + intros p r p' r' Hin Hin'.
      apply in_eliminated in Hin. apply in_eliminated in Hin'.
      destruct Hin as [[r0 [Hin ->]]|[-> ->]];
        destruct Hin' as [[r0' [Hin' ->]]|[-> ->]].
      * rewrite entry_eliminate by (rewrite Hlp; eauto).
        rewrite (Hun _ _ _ _ Hin Hin'), (Hpz p (Hlt _ _ Hin)). ring.
      * rewrite (Hpz p (Hlt _ _ Hin)), delta_diff; [reflexivity|].
        specialize (Hlt _ _ Hin). lia.
      * rewrite entry_eliminate by (rewrite Hlp; eauto).
        rewrite Hpc, delta_diff; [ring|]. specialize (Hlt _ _ Hin'). lia.
      * now rewrite delta_same.
    + intros r k Hin Hk. apply in_map_iff in Hin. destruct Hin as [r0 [<- Hin]].
      rewrite entry_eliminate by (rewrite Hlp; auto).
      destruct (Nat.eq_dec k c) as [->|Hne].
      * rewrite Hpc. ring.
      * rewrite (Hrz r0 k), Hpz by (auto; lia). ring.
    + intros v Hdone Hrest' r Hin.
      assert (Hpv : dot piv v = 0).
      { apply (Hdone c). apply in_eliminated. now right. }
      apply Hso; auto.
      * intros p r1 Hin1.
        assert (He : dot (eliminate piv c r1) v = 0).
        { apply (Hdone p). apply in_eliminated. left. now exists r1. }
        unfold eliminate in He. rewrite dot_row_sub in He
          by (rewrite Hlp; eauto).
        rewrite Hpv in He. rewrite <- He. ring.
      * intros r1 Hin1.
        rewrite Hrest, in_app_iff in Hin1. simpl in Hin1.
        assert (Hcase : r1 = row \/ In r1 (swap_rest before after)).
        { rewrite in_swap_rest, in_app_iff. intuition auto. }
        destruct Hcase as [->|Hin2].
        -- rewrite Hrowpiv, Hpv. ring.
        -- assert (He : dot (eliminate piv c r1) v = 0).
           { apply Hrest'. now apply in_map. }
           unfold eliminate in He. rewrite dot_row_sub in He
             by (rewrite Hlp; auto).
           rewrite Hpv in He. rewrite <- He. ring.
  - constructor; simpl; auto.
    + intros p r Hin. specialize (Hlt _ _ Hin). lia.
    + intros r k Hin Hk. destruct (Nat.eq_dec k c) as [->|Hne].
      * eapply find_pivot_none; eauto.
      * apply Hrz; auto. lia.
Qed.

Lemma rref_fold_inv (len start : nat) (st : rref_state) :
  rref_inv n rows0 start st ->
  rref_inv n rows0 (start + len) (fold_left rref_step (seq start len) st).
Proof.
  revert start st. induction len as [|len IH]; intros start st H; simpl.
  - now rewrite Nat.add_0_r.
  - rewrite <- Nat.add_succ_comm. apply IH. now apply rref_step_inv.
Qed.

End Reduction.

(** ** The null space *)

Section NullSpace.

Local Open Scope Qc_scope.

Lemma combine_fst_snd (A B : Type) (d : list (A * B)) (rest : list B) :
  combine (map fst d) (map snd d ++ rest) = d.
Proof.
  induction d as [|[a b] d IH]; simpl.
  - reflexivity.
  - now rewrite IH.
Qed.

Lemma length_back_substitute (j : nat) (done : list (nat * vec)) (v : vec) :
  List.length (fold_left (back_substitute j) done v) = List.length v.
Proof.
  revert v. induction done as [|pr done IH]; intro v; simpl; auto.
  rewrite IH. apply length_list_set.
Qed.

Lemma dot_back_substitute (j : nat) (done : list (nat * vec)) (v r : vec) :
  List.length r = List.length v ->
  dot r (fold_left (back_substitute j) done v) = dot r v - pivot_sum j r done.
Proof.
  revert v. induction done as [|[p row] done IH]; intros v Hlen; simpl.
  - ring.
  - rewrite IH by (unfold back_substitute; now rewrite length_list_set).
    unfold back_substitute. simpl. rewrite dot_list_set by assumption. ring.
Qed.

Lemma pivot_sum_absent (j p' : nat) (r' : vec) (done : list (nat * vec)) :
  (forall p r, In (p, r) done -> entry r' p = delta p p') ->
  ~ In p' (map fst done) ->
  pivot_sum j r' done = 0.
Proof.
  induction done as [|[p row] done IH]; simpl; intros Hun Hnot; auto.
  rewrite IH by (intuition eauto).
  rewrite (Hun p row) by auto. rewrite delta_diff by intuition auto. ring.
Qed.

Lemma pivot_sum_present (j p' : nat) (r' : vec) (done : list (nat * vec)) :
  NoDup (map fst done) ->
  In (p', r') done ->
  (forall p r, In (p, r) done -> entry r' p = delta p p') ->
  pivot_sum j r' done = entry r' j.
Proof.
  induction done as [|[p row] done IH]; simpl; intros Hnd Hin Hun;
    [contradiction|].
  inversion Hnd as [|? ? Hnot Hnd']; subst.
  destruct Hin as [Heq|Hin].
  - injection Heq as -> ->.
    rewrite (pivot_sum_absent j p' r' done)
      by (try assumption; intros p0 r0 H0; eapply Hun; eauto).
    rewrite (Hun p' r') by auto. rewrite delta_same. ring.
  - rewrite IH by (try assumption; intros p0 r0 H0; eapply Hun; eauto).
    rewrite (Hun p row) by auto.
    rewrite delta_diff; [ring|].
    intros ->. apply Hnot. apply in_map_iff. now exists (p', r').
Qed.

Lemma rref_run_inv (M : Matrix) :
  well_formed M -> rref_inv (m_cols M) (m_rows M) (m_cols M) (rref_run M).
Proof.
  intro Hwf. unfold rref_run.
  apply (rref_fold_inv (m_cols M) (m_rows M) (m_cols M) 0%nat).
  now apply rref_inv_init.
Qed.

Lemma basis_vector_done (M : Matrix) (j : nat) :
  basis_vector (m_cols M) (fst (rref M)) (snd (rref M)) j
  = fold_left (back_substitute j) (fst (rref_run M))
      (list_set (repeat 0 (m_cols M)) j 1).
Proof.
  unfold basis_vector, rref. simpl. now rewrite combine_fst_snd.
Qed.

Lemma in_nullspace (M : Matrix) (v : vec) :
  In v (nullspace M) <->
  exists j, (j < m_cols M)%nat /\ ~ In j (snd (rref M))
            /\ v = basis_vector (m_cols M) (fst (rref M)) (snd (rref M)) j.
Proof.
  unfold nullspace. destruct (rref M) as [reduced pivots] eqn:Hr. simpl.
  rewrite in_map_iff. split.
  - intros [j [<- Hin]]. apply filter_In in Hin. destruct Hin as [Hin Hfree].
    exists j. apply in_seq in Hin. split; [lia | split; [|reflexivity]].
    intro Hp. apply negb_true_iff in Hfree.
    assert (existsb (Nat.eqb j) pivots = true); [|congruence].
    apply existsb_exists. exists j. split; auto. apply Nat.eqb_refl.
  - intros [j [Hj [Hfree ->]]]. exists j. split; auto.
    apply filter_In. split; [apply in_seq; lia|].
    apply negb_true_iff. destruct (existsb (Nat.eqb j) pivots) eqn:He; auto.
    apply existsb_exists in He. destruct He as [k [Hk Heq]].
    apply Nat.eqb_eq in Heq. subst k. contradiction.
Qed.

Lemma length_basis_vector (M : Matrix) (j : nat) :
  List.length (basis_vector (m_cols M) (fst (rref M)) (snd (rref M)) j)
  = m_cols M.
Proof.
  rewrite basis_vector_done, length_back_substitute, length_list_set.
  apply repeat_length.
Qed.

(** Every vector of the basis is annihilated by every row of the matrix. *)
Lemma nullspace_sound (M : Matrix) (v r : vec) :
  well_formed M -> In v (nullspace M) -> In r (m_rows M) -> dot r v = 0.
Proof.
  intros Hwf Hv. apply in_nullspace in Hv. destruct Hv as [j [Hj [_ ->]]].
  destruct (rref_run_inv M Hwf) as [Hld Hlr Hlt Hnd Hun Hrz Hso].
  rewrite basis_vector_done. apply Hso.
  - intros p r' Hin.
    rewrite dot_back_substitute
      by (rewrite length_list_set, repeat_length; eauto).
    rewrite dot_list_set by (rewrite repeat_length; eauto).
    rewrite dot_repeat_zero, entry_repeat_zero.
    rewrite (pivot_sum_present j p r' _ Hnd Hin).
    + ring.
    + intros p0 r0 Hin0. eapply Hun; eauto.
  - intros r' Hin. apply dot_zero_row. intros k Hk.
    apply (Hrz r' k Hin). rewrite (Hlr r' Hin) in Hk. exact Hk.
Qed.

End NullSpace.

(** ** Scaling to integers *)

Section Scaling.

Lemma int_of_Qc_of_Z (z : Z) : int_of_Qc (Qc_of_Z z) = z.
Proof.
  unfold int_of_Qc, Qc_of_Z, Q2Qc. cbn [this].
  rewrite Qred_identity by (simpl; apply Z.gcd_1_r).
  simpl. apply Z.quot_1_r.
Qed.

Lemma Qc_of_Z_add (a b : Z) : Qc_of_Z (a + b) = (Qc_of_Z a + Qc_of_Z b)%Qc.
Proof.
  apply Qc_is_canon. unfold Qc_of_Z, Qcplus, Q2Qc. cbn [this].
  rewrite !Qred_correct. unfold Qeq, Qplus. simpl. ring.
Qed.

Lemma Qc_of_Z_mul (a b : Z) : Qc_of_Z (a * b) = (Qc_of_Z a * Qc_of_Z b)%Qc.
Proof.
  apply Qc_is_canon. unfold Qc_of_Z, Qcmult, Q2Qc. cbn [this].
  rewrite !Qred_correct. unfold Qeq, Qmult. simpl. ring.
Qed.

Lemma Qc_of_Z_opp (a : Z) : Qc_of_Z (- a) = (- Qc_of_Z a)%Qc.
Proof.
  apply Qc_is_canon. unfold Qc_of_Z, Qcopp, Q2Qc. cbn [this].
  rewrite !Qred_correct. unfold Qeq, Qopp. simpl. ring.
Qed.

Lemma Qc_of_Z_inj (a b : Z) : Qc_of_Z a = Qc_of_Z b -> a = b.
Proof.
  intro H. rewrite <- (int_of_Qc_of_Z a), <- (int_of_Qc_of_Z b). now rewrite H.
Qed.

Lemma scale_exact (L : Z) (c : Qc) :
  (denominator c | L) -> (c * Qc_of_Z L)%Qc = Qc_of_Z (scaled L c).
Proof.
  intros [k Hk]. unfold scaled. rewrite Hk, Z.div_mul by discriminate.
  apply Qc_is_canon. unfold Qc_of_Z, Qcmult, Q2Qc. cbn [this].
  rewrite !Qred_correct. unfold denominator.
  destruct c as [[num den] Hc]. unfold Qeq, Qmult, inject_Z. simpl.
  rewrite Pos.mul_1_r. ring.
Qed.

Lemma lcm_pos (a b : Z) :
  0 < a -> 0 < b -> 0 < lcm a b /\ (a | lcm a b) /\ (b | lcm a b).
Proof.
  intros Ha Hb. unfold lcm.
  assert (Hg : 0 < Z.gcd a b).
  { pose proof (Z.gcd_nonneg a b).
    assert (Z.gcd a b <> 0) by (rewrite Z.gcd_eq_0; lia). lia. }
  destruct (Z.gcd_divide_l a b) as [ka Hka].
  destruct (Z.gcd_divide_r a b) as [kb Hkb].
  set (g := Z.gcd a b) in *.
  assert (Hab : Z.abs (a * b) = ka * b * g).
  { rewrite Z.abs_eq by nia. rewrite Hka at 1. ring. }
  rewrite Hab, Z.div_mul by lia.
  repeat split.
  - nia.
  - exists kb. rewrite Hkb, Hka. ring.
  - exists ka. reflexivity.
Qed.

Lemma scale_factor_spec (dens : list Z) (acc : Z) :
  0 < acc -> (forall d, In d dens -> 0 < d) ->
  0 < fold_left lcm dens acc
  /\ (acc | fold_left lcm dens acc)
  /\ (forall d, In d dens -> (d | fold_left lcm dens acc)).
Proof.
  revert acc. induction dens as [|d0 dens IH]; intros acc Hacc Hpos; simpl.
  - repeat split; [assumption | apply Z.divide_refl | contradiction].
  - destruct (lcm_pos acc d0 Hacc) as [H1 [H2 H3]]; [apply Hpos; now left|].
    destruct (IH (lcm acc d0) H1) as [G1 [G2 G3]];
      [intros; apply Hpos; now right|].
    repeat split; auto.
    + eapply Z.divide_trans; eauto.
    + intros d [<-|Hin]; [eapply Z.divide_trans; eauto | auto].
Qed.

Lemma scale_factor_pos (v : vec) :
  0 < scale_factor v
  /\ forall c, In c v -> (denominator c | scale_factor v).
Proof.
  unfold scale_factor.
  destruct (scale_factor_spec (map (fun f => Z.abs (denominator f)) v) 1)
    as [H1 [_ H3]]; [lia | |].
  - intros d Hin. apply in_map_iff in Hin. destruct Hin as [c [<- _]].
    unfold denominator. simpl. lia.
  - split; auto. intros c Hin.
    specialize (H3 (Z.abs (denominator c))).
    unfold denominator in *. simpl Z.abs in H3. apply H3.
    apply in_map_iff. now exists c.
Qed.

Lemma scaled_coeffs_eq (v : vec) :
  map (fun c => int_of_Qc (c * Qc_of_Z (scale_factor v))%Qc) v
  = map (scaled (scale_factor v)) v.
Proof.
  apply map_ext_in. intros c Hin.
  rewrite scale_exact by (now apply scale_factor_pos).
  apply int_of_Qc_of_Z.
Qed.

Lemma scaled_sgn (L : Z) (c : Qc) :
  0 < L -> (denominator c | L) -> Z.sgn (scaled L c) = Z.sgn (Qnum c).
Proof.
  intros HL [k Hk]. unfold scaled. rewrite Hk, Z.div_mul by discriminate.
  assert (0 < k) by (unfold denominator in Hk; nia).
  rewrite Z.sgn_mul, (Z.sgn_pos k) by assumption. ring.
Qed.

Lemma Qnum_zero (c : Qc) : Qnum c = 0 <-> c = 0%Qc.
Proof. rewrite <- is_zero_spec. unfold is_zero. apply iff_sym, Z.eqb_eq. Qed.

End Scaling.

(** ** Dividing by the common divisor *)

Section Normalising.

Lemma gcd_list_nonneg (l : list Z) : 0 <= gcd_list l.
Proof. destruct l; simpl; [lia | apply Z.gcd_nonneg]. Qed.

Lemma gcd_list_divide (l : list Z) (x : Z) : In x l -> (gcd_list l | x).
Proof.
  induction l as [|y l IH]; simpl; [contradiction|].
  intros [<-|Hin].
  - apply Z.gcd_divide_l.
  - eapply Z.divide_trans; [apply Z.gcd_divide_r | auto].
Qed.

Lemma gcd_list_greatest (l : list Z) (d : Z) :
  (forall x, In x l -> (d | x)) -> (d | gcd_list l).
Proof.
  induction l as [|y l IH]; simpl; intro H.
  - apply Z.divide_0_r.
  - apply Z.gcd_greatest; auto.
Qed.

Lemma gcd_list_zero (l : list Z) :
  gcd_list l = 0 -> forall x, In x l -> x = 0.
Proof.
  intros H x Hin. destruct (gcd_list_divide l x Hin) as [k Hk].
  rewrite H in Hk. lia.
Qed.

Lemma gcd_list_mul (d : Z) (l : list Z) :
  gcd_list (map (Z.mul d) l) = Z.abs d * gcd_list l.
Proof.
  induction l as [|y l IH]; simpl.
  - ring.
  - rewrite IH.
    rewrite <- (Z.abs_eq (gcd_list l)) at 1 by apply gcd_list_nonneg.
    rewrite <- Z.abs_mul, Z.gcd_abs_r. apply Z.gcd_mul_mono_l.
Qed.

Lemma fold_left_gcd (xs : list Z) (a : Z) :
  0 <= a -> fold_left Z.gcd xs a = Z.gcd a (gcd_list xs).
Proof.
  revert a. induction xs as [|y xs IH]; intros a Ha; simpl.
  - rewrite Z.gcd_0_r. symmetry. now apply Z.abs_eq.
  - rewrite IH by apply Z.gcd_nonneg. symmetry. apply Z.gcd_assoc.
Qed.

Lemma divisor_abs (l : list Z) : Z.abs (divisor l) = gcd_list l.
Proof.
  destruct l as [|x [|y xs]]; simpl.
  - reflexivity.
  - now rewrite Z.gcd_0_r.
  - rewrite fold_left_gcd by apply Z.gcd_nonneg.
    rewrite Z.abs_eq by apply Z.gcd_nonneg. symmetry. apply Z.gcd_assoc.
Qed.

Lemma divisor_nonneg (l : list Z) :
  (2 <= List.length l)%nat -> divisor l = gcd_list l.
Proof.
  destruct l as [|x [|y xs]]; simpl; try lia. intros _.
  rewrite fold_left_gcd by apply Z.gcd_nonneg. symmetry. apply Z.gcd_assoc.
Qed.

Lemma divisor_divide (l : list Z) (x : Z) : In x l -> (divisor l | x).
Proof.
  intro Hin. apply Z.divide_abs_l. rewrite divisor_abs.
  now apply gcd_list_divide.
Qed.

Lemma divisor_nonzero (l : list Z) :
  (exists x, In x l /\ x <> 0) -> divisor l <> 0.
Proof.
  intros [x [Hin Hx]] Hd. apply Hx.
  apply (gcd_list_zero l); auto. rewrite <- divisor_abs, Hd. reflexivity.
Qed.

Lemma gcd_list_quotients (l : list Z) :
  divisor l <> 0 -> gcd_list (map (fun x => x / divisor l) l) = 1.
Proof.
  intro Hd. set (d := divisor l) in *.
  assert (Hl : map (Z.mul d) (map (fun x => x / d) l) = l).
  { rewrite map_map. rewrite <- (map_id l) at 2. apply map_ext_in.
    intros x Hin. destruct (divisor_divide l x Hin) as [k Hk]. fold d in Hk.
    rewrite Hk, Z.div_mul by assumption. ring. }
  pose proof (gcd_list_mul d (map (fun x => x / d) l)) as Hm.
  rewrite Hl, <- divisor_abs in Hm. fold d in Hm.
  pose proof (gcd_list_nonneg (map (fun x => x / d) l)).
  nia.
Qed.

Lemma map_result_floordiv (g : Z) (l : list Z) :
  g <> 0 ->
  map_result (fun c => floordiv c g) l = Ok (map (fun c => c / g) l).
Proof.
  intro Hg. induction l as [|x l IH]; simpl; auto.
  unfold floordiv at 1. apply Z.eqb_neq in Hg. rewrite Hg. simpl.
  now rewrite IH.
Qed.

Lemma scaled_nonzero (v : vec) :
  (exists c, In c v /\ c <> 0%Qc) ->
  exists x, In x (map (scaled (scale_factor v)) v) /\ x <> 0.
Proof.
  intros [c [Hin Hc]]. exists (scaled (scale_factor v) c).
  split; [now apply in_map|].
  destruct (scale_factor_pos v) as [HL Hdiv].
  intro H. apply Hc. apply Qnum_zero.
  pose proof (scaled_sgn _ c HL (Hdiv c Hin)) as Hs.
  rewrite H in Hs. simpl in Hs. symmetry in Hs. now apply Z.sgn_null_iff.
Qed.

Lemma simplify_coefficients_ok (v : vec) :
  (exists c, In c v /\ c <> 0%Qc) ->
  simplify_coefficients v = Ok (simplified v).
Proof.
  intro Hnz. unfold simplify_coefficients. fold (scale_factor v).
  rewrite scaled_coeffs_eq.
  pose proof (divisor_nonzero _ (scaled_nonzero v Hnz)) as Hd.
  destruct (map (scaled (scale_factor v)) v) as [|x xs] eqn:Hl.
  - now elim Hd.
  - unfold reduce_gcd. cbn [bind]. rewrite map_result_floordiv by exact Hd.
    unfold simplified. rewrite Hl. reflexivity.
Qed.

Lemma length_simplified (v : vec) :
  List.length (simplified v) = List.length v.
Proof. unfold simplified. now rewrite !length_map. Qed.

(** Each returned integer, times the divisor, is the entry times the scale
    factor. *)
Lemma simplified_ratio (v : vec) (c : Qc) :
  In c v ->
  let L := scale_factor v in
  let d := divisor (map (scaled L) v) in
  (Qc_of_Z (scaled L c / d) * Qc_of_Z d)%Qc = (c * Qc_of_Z L)%Qc.
Proof.
  intros Hin L d. destruct (scale_factor_pos v) as [HL Hdiv].
  rewrite (scale_exact L c) by (apply Hdiv, Hin).
  rewrite <- Qc_of_Z_mul. f_equal.
  destruct (divisor_divide (map (scaled L) v) (scaled L c)) as [k Hk];
    [now apply in_map|].
  fold d in Hk. rewrite Hk.
  destruct (Z.eq_dec d 0) as [Hz|Hz].
  - rewrite Hz. ring.
  - rewrite Z.div_mul by assumption. ring.
Qed.

Lemma simplified_map (v : vec) :
  simplified v
  = map (fun c => scaled (scale_factor v) c
                  / divisor (map (scaled (scale_factor v)) v)) v.
Proof. unfold simplified. now rewrite map_map. Qed.

End Normalising.

(** ** The basis vectors are not zero *)

Section FreeVariable.

Local Open Scope Qc_scope.

Lemma entry_list_set_other (v : vec) (i j : nat) (x : Qc) :
  i <> j -> entry (list_set v i x) j = entry v j.
Proof.
  unfold entry. revert i j.
  induction v as [|a v IH]; intros [|i] [|j] H; simpl; auto; try congruence.
Qed.

Lemma entry_list_set_same (v : vec) (i : nat) (x : Qc) :
  (i < List.length v)%nat -> entry (list_set v i x) i = x.
Proof.
  unfold entry. revert i.
  induction v as [|a v IH]; intros [|i] H; simpl in *; auto; try lia.
  apply IH. lia.
Qed.

Lemma entry_back_substitute_free (j : nat) (done : list (nat * vec)) (v : vec) :
  ~ In j (map fst done) ->
  entry (fold_left (back_substitute j) done v) j = entry v j.
Proof.
  revert v. induction done as [|[p row] done IH]; intros v Hfree; simpl in *.
  - reflexivity.
  - rewrite IH by tauto. unfold back_substitute. simpl.
    apply entry_list_set_other. tauto.
Qed.

Lemma Qc_one_neq_zero : 1 <> 0.
Proof. intro H. apply (f_equal this) in H. discriminate H. Qed.

(** A basis vector has as many entries as the matrix has columns, and a 1 at
    its free column. *)
Lemma nullspace_free_entry (M : Matrix) (v : vec) :
  In v (nullspace M) ->
  List.length v = m_cols M
  /\ exists j, (j < m_cols M)%nat /\ entry v j = 1.
Proof.
  intro Hv. apply in_nullspace in Hv. destruct Hv as [j [Hj [Hfree ->]]].
  split; [apply length_basis_vector|]. exists j. split; [assumption|].
  rewrite basis_vector_done, entry_back_substitute_free.
  - apply entry_list_set_same. now rewrite repeat_length.
  - exact Hfree.
Qed.

Lemma nullspace_nonzero (M : Matrix) (v : vec) :
  In v (nullspace M) -> exists c, In c v /\ c <> 0.
Proof.
  intro Hv. destruct (nullspace_free_entry M v Hv) as [Hlen [j [Hj H1]]].
  exists (entry v j). split.
  - apply nth_In. lia.
  - rewrite H1. exact Qc_one_neq_zero.
Qed.

End FreeVariable.

(** ** Conservation of the elements *)

Section Conservation.

Lemma dotZ_app (a b l : list Z) :
  dotZ (a ++ b) l
  = dotZ a (firstn (List.length a) l) + dotZ b (skipn (List.length a) l).
Proof.
  revert l. induction a as [|x a IH]; intro l; simpl.
  - reflexivity.
  - destruct l as [|y l]; simpl.
    + destruct b; reflexivity.
    + rewrite IH. ring.
Qed.

Lemma dotZ_counts (element : string) (compounds : list string) (l : list Z) :
  dotZ (map (fun compound => dict_get (parse_compound compound) element 0)
          compounds) l
  = atoms element l compounds.
Proof.
  unfold atoms. revert l.
  induction compounds as [|x compounds IH]; intros [|y l]; simpl; auto.
  rewrite IH. ring.
Qed.

Lemma dotZ_neg_counts (element : string) (compounds : list string) (l : list Z) :
  dotZ (map (fun compound => - dict_get (parse_compound compound) element 0)
          compounds) l
  = - atoms element l compounds.
Proof.
  unfold atoms. revert l.
  induction compounds as [|x compounds IH]; intros [|y l]; simpl; auto.
  rewrite IH. ring.
Qed.

Lemma dotZ_build_row (reactants products : list string) (element : string)
  (l : list Z) :
  dotZ (build_row reactants products element) l
  = atoms element (firstn (List.length reactants) l) reactants
    - atoms element (skipn (List.length reactants) l) products.
Proof.
  unfold build_row. rewrite dotZ_app, length_map.
  rewrite dotZ_counts, dotZ_neg_counts. ring.
Qed.

Lemma dot_Qc_of_Z (r l : list Z) :
  dot (map Qc_of_Z r) (map Qc_of_Z l) = Qc_of_Z (dotZ r l).
Proof.
  revert l. induction r as [|x r IH]; intros [|y l]; simpl; auto.
  rewrite IH, Qc_of_Z_add, Qc_of_Z_mul. reflexivity.
Qed.

Lemma dot_proportional (f : Qc -> Z) (d L : Z) (r v : vec) :
  (forall c, In c v -> (Qc_of_Z (f c) * Qc_of_Z d)%Qc = (c * Qc_of_Z L)%Qc) ->
  (dot r (map Qc_of_Z (map f v)) * Qc_of_Z d)%Qc = (dot r v * Qc_of_Z L)%Qc.
Proof.
  revert r. induction v as [|c v IH]; intros [|x r] H; simpl; try ring.
  rewrite Qcmult_plus_distr_l, IH by (intros; apply H; now right).
  rewrite <- Qcmult_assoc, (H c) by now left. ring.
Qed.

(** A row of integers that annihilates a rational vector annihilates the
    integers returned for it. *)
Lemma dotZ_simplified (row : list Z) (v : vec) :
  (exists c, In c v /\ c <> 0%Qc) ->
  dot (map Qc_of_Z row) v = 0%Qc ->
  dotZ row (simplified v) = 0.
Proof.
  intros Hnz Hdot. apply Qc_of_Z_inj. rewrite <- dot_Qc_of_Z.
  change (Qc_of_Z 0) with 0%Qc.
  pose proof (divisor_nonzero _ (scaled_nonzero v Hnz)) as Hd.
  pose proof (dot_proportional _ _ _ (map Qc_of_Z row) v (simplified_ratio v))
    as Hp.
  cbv zeta in Hp. rewrite <- simplified_map, Hdot in Hp.
  assert (Hq : Qc_of_Z (divisor (map (scaled (scale_factor v)) v)) <> 0%Qc).
  { intro H. apply Hd. apply Qc_of_Z_inj. exact H. }
  destruct (Qcmult_integral _ _ (eq_trans Hp (Qcmult_0_l _))) as [H|H];
    [exact H | contradiction].
Qed.

Lemma well_formed_build_matrix (reactants products elements : list string) :
  well_formed (Matrix_of (build_matrix reactants products elements)).
Proof.
  unfold well_formed, Matrix_of, build_matrix. simpl.
  intros r Hin. apply in_map_iff in Hin. destruct Hin as [row [<- Hin]].
  apply in_map_iff in Hin. destruct Hin as [e [<- Hin]].
  destruct elements as [|e0 elements]; [contradiction|]. simpl.
  unfold build_row. now rewrite !length_map, !length_app, !length_map.
Qed.

Lemma cols_build_matrix (reactants products elements : list string) :
  elements <> [] ->
  m_cols (Matrix_of (build_matrix reactants products elements))
  = (List.length reactants + List.length products)%nat.
Proof.
  destruct elements as [|e0 elements]; [congruence|]. intros _. simpl.
  unfold build_row. now rewrite length_app, !length_map.
Qed.

(** What [balance] returns, case by case. *)
Lemma balance_cases (reaction : string) :
  match parse_reaction reaction with
  | None => balance reaction = Ok InvalidFormat
  | Some (reactants, products) =>
      let M := Matrix_of (build_matrix reactants products
                            (get_elements reactants products)) in
      match nullspace M with
      | [] => balance reaction = Ok CannotBalance
      | v :: _ =>
          balance reaction
          = Ok (Balanced reactants products
                  (firstn (List.length reactants) (simplified v))
                  (skipn (List.length reactants) (simplified v)))
      end
  end.
Proof.
  unfold balance. destruct (parse_reaction reaction) as [[rs ps]|]; auto.
  cbv zeta.
  destruct (nullspace _) as [|v basis] eqn:Hn; auto.
  rewrite simplify_coefficients_ok; [reflexivity|].
  apply (nullspace_nonzero
           (Matrix_of (build_matrix rs ps (get_elements rs ps)))).
  rewrite Hn. now left.
Qed.

End Conservation.

(** ** Scanning a formula *)

Section Scanning.

Lemma span_app (p : ascii -> bool) (s : str) :
  s = fst (span p s) ++ snd (span p s).
Proof.
  induction s as [|c r IH]; simpl; auto.
  destruct (p c); simpl; auto.
  destruct (span p r) as [a b]. simpl in *. now rewrite <- IH.
Qed.

Lemma span_all (p : ascii -> bool) (s : str) (c : ascii) :
  In c (fst (span p s)) -> p c = true.
Proof.
  induction s as [|c0 r IH]; simpl; [contradiction|].
  destruct (p c0) eqn:Hp; simpl; [|contradiction].
  destruct (span p r) as [a b]. simpl in *. intros [<-|Hin]; auto.
Qed.

Lemma span_length (p : ascii -> bool) (s : str) :
  (List.length (snd (span p s)) <= List.length s)%nat.
Proof.
  induction s as [|c r IH]; simpl; auto.
  destruct (p c); simpl; auto.
  destruct (span p r) as [a b]. simpl in *. lia.
Qed.

Lemma span_incl (p : ascii -> bool) (s : str) (c : ascii) :
  In c (fst (span p s)) \/ In c (snd (span p s)) -> In c s.
Proof.
  rewrite (span_app p s) at 3. rewrite in_app_iff. tauto.
Qed.

(** One step of the scan, with the pairs [(a, b)] of [span] named. *)
Lemma findall_from_step (f : nat) (c : ascii) (r : str) :
  findall_from (S f) (c :: r)
  = if is_upper c then
      (c :: fst (span is_lower r),
       fst (span is_digit (snd (span is_lower r))))
      :: findall_from f (snd (span is_digit (snd (span is_lower r))))
    else findall_from f r.
Proof.
  simpl. destruct (is_upper c); auto.
  destruct (span is_lower r) as [lows r1]. simpl.
  destruct (span is_digit r1) as [digs r2]. reflexivity.
Qed.

(** The scan does not depend on the fuel once there is enough of it. *)
Lemma findall_from_enough (f1 f2 : nat) (s : str) :
  (List.length s <= f1)%nat -> (List.length s <= f2)%nat ->
  findall_from f1 s = findall_from f2 s.
Proof.
  revert f2 s. induction f1 as [|f1 IH]; intros f2 s H1 H2.
  - destruct s; [|simpl in H1; lia]. destruct f2; reflexivity.
  - destruct s as [|c r]; [destruct f2; reflexivity|].
    destruct f2 as [|f2]; [simpl in H2; lia|].
    rewrite !findall_from_step. simpl in H1, H2.
    destruct (is_upper c).
    + f_equal. pose proof (span_length is_lower r).
      pose proof (span_length is_digit (snd (span is_lower r))).
      apply IH; lia.
    + apply IH; lia.
Qed.

Lemma findall_nil : findall [] = [].
Proof. reflexivity. Qed.

Lemma findall_cons (c : ascii) (r : str) :
  findall (c :: r)
  = if is_upper c then
      (c :: fst (span is_lower r),
       fst (span is_digit (snd (span is_lower r))))
      :: findall (snd (span is_digit (snd (span is_lower r))))
    else findall r.
Proof.
  unfold findall. simpl List.length. rewrite findall_from_step.
  destruct (is_upper c); auto. f_equal.
  pose proof (span_length is_lower r).
  pose proof (span_length is_digit (snd (span is_lower r))).
  apply findall_from_enough; lia.
Qed.

(** Every match is an upper-case letter with lower-case letters, then
    digits, all of them characters of the string. *)
Lemma findall_matches (s : str) (sym digs : str) :
  In (sym, digs) (findall s) ->
  (forall c, In c digs -> is_digit c = true /\ In c s)
  /\ exists c lows, sym = c :: lows /\ is_upper c = true.
Proof.
  remember (List.length s) as n eqn:Hn. revert s Hn.
  induction n as [n IH] using lt_wf_ind. intros s Hn.
  destruct s as [|c r]; [simpl; contradiction|].
  rewrite findall_cons. destruct (is_upper c) eqn:Hup.
  - pose proof (span_length is_lower r) as L1.
    pose proof (span_length is_digit (snd (span is_lower r))) as L2.
    intros [Heq|Hin].
    + injection Heq as <- <-.
      split; [|exists c, (fst (span is_lower r)); now split].
      intros d Hd. split; [eapply span_all; eauto|].
      right. apply (span_incl is_lower). right.
      apply (span_incl is_digit). now left.
    + simpl in Hn.
      set (r2 := snd (span is_digit (snd (span is_lower r)))) in *.
      assert (Hlt : (List.length r2 < n)%nat) by lia.
      destruct (IH (List.length r2) Hlt r2 eq_refl Hin) as [Hd Hs].
      split; [|exact Hs]. intros d Hin'. destruct (Hd d Hin') as [G1 G2].
      split; auto. right. apply (span_incl is_lower). right.
      apply (span_incl is_digit). now right.
  - intro Hin. simpl in Hn.
    assert (Hlt : (List.length r < n)%nat) by lia.
    destruct (IH (List.length r) Hlt r eq_refl Hin) as [Hd Hs].
    split; [|exact Hs]. intros d Hin'. destruct (Hd d Hin').
    split; [assumption | now right].
Qed.

Lemma findall_no_upper (s : str) :
  (forall c, In c s -> is_upper c = false) -> findall s = [].
Proof.
  induction s as [|c r IH]; intro H; [reflexivity|].
  rewrite findall_cons, (H c) by now left.
  apply IH. intros; apply H; now right.
Qed.

Lemma findall_skip_prefix (prefix s : str) :
  (forall c, In c prefix -> is_upper c = false) ->
  findall (prefix ++ s) = findall s.
Proof.
  induction prefix as [|c r IH]; intro H; [reflexivity|].
  simpl. rewrite findall_cons, (H c) by now left.
  apply IH. intros; apply H; now right.
Qed.

Lemma findall_upper (s : str) :
  (exists c, In c s /\ is_upper c = true) -> findall s <> [].
Proof.
  induction s as [|c r IH]; intros [u [Hin Hu]]; [contradiction|].
  rewrite findall_cons. destruct (is_upper c) eqn:Hc; [discriminate|].
  apply IH. exists u. destruct Hin as [->|Hin]; [congruence | auto].
Qed.

End Scanning.

(** ** Counts and dictionaries *)

Section Counts.

Lemma digit_val_range (c : ascii) :
  is_digit c = true -> 0 <= digit_val c <= 9.
Proof.
  unfold is_digit, between, digit_val. intro H.
  apply andb_true_iff in H. destruct H as [H1 H2].
  apply Nat.leb_le in H1, H2. lia.
Qed.

Lemma digit_val_positive (c : ascii) :
  is_digit c = true -> c <> "0"%char -> 1 <= digit_val c.
Proof.
  intros H Hc. pose proof (digit_val_range c H) as Hr.
  destruct (Z.eq_dec (digit_val c) 0) as [Hz|Hz]; [|lia].
  exfalso. apply Hc. rewrite <- (ascii_nat_embedding c).
  unfold digit_val, code in Hz.
  replace (nat_of_ascii c) with 48%nat by lia. reflexivity.
Qed.

Lemma int_of_digits_from (ds : str) (acc : Z) :
  0 <= acc -> (forall c, In c ds -> is_digit c = true) ->
  acc <= fold_left (fun a c => 10 * a + digit_val c) ds acc.
Proof.
  revert acc. induction ds as [|c ds IH]; intros acc Hacc Hd;
    cbn [fold_left]; [lia|].
  pose proof (digit_val_range c (Hd c (or_introl eq_refl))).
  apply Z.le_trans with (10 * acc + digit_val c); [lia|].
  apply IH; [lia|]. intros; apply Hd; now right.
Qed.

Lemma count_of_nonneg (digs : str) :
  (forall c, In c digs -> is_digit c = true) -> 0 <= count_of digs.
Proof.
  intro Hd. destruct digs as [|c ds]; [simpl; lia|].
  unfold count_of, int_of_digits. apply int_of_digits_from; [lia | assumption].
Qed.

Lemma count_of_positive (digs : str) :
  (forall c, In c digs -> is_digit c = true) ->
  ~ In "0"%char digs -> 1 <= count_of digs.
Proof.
  intros Hd Hz. destruct digs as [|c ds]; [simpl; lia|].
  unfold count_of, int_of_digits. cbn [fold_left].
  assert (1 <= digit_val c).
  { apply digit_val_positive; [apply Hd; now left|].
    intros ->. apply Hz. now left. }
  apply Z.le_trans with (10 * 0 + digit_val c); [lia|].
  apply int_of_digits_from; [lia|]. intros; apply Hd; now right.
Qed.

Lemma dict_set_values (P : Z -> Prop) (d : dict) (k : string) (v : Z) :
  (forall k' v', In (k', v') d -> P v') -> P v ->
  forall k' v', In (k', v') (dict_set d k v) -> P v'.
Proof.
  induction d as [|[k0 v0] d IH]; simpl; intros Hd Hv k' v' Hin.
  - destruct Hin as [Heq|[]]. now injection Heq as <- <-.
  - destruct (String.eqb k0 k); simpl in Hin.
    + destruct Hin as [Heq|Hin]; [now injection Heq as <- <- | eauto].
    + destruct Hin as [Heq|Hin]; [injection Heq as <- <-; eauto|].
      eapply IH; eauto.
Qed.

Lemma dict_fold_values (P : Z -> Prop) (pairs : list (str * str)) (d : dict) :
  (forall k' v', In (k', v') d -> P v') ->
  (forall sym digs, In (sym, digs) pairs -> P (count_of digs)) ->
  forall k' v',
    In (k', v')
      (fold_left (fun d ec => dict_set d (string_of_list_ascii (fst ec))
                                (count_of (snd ec))) pairs d) ->
    P v'.
Proof.
  revert d. induction pairs as [|[sym digs] pairs IH]; simpl; intros d Hd Hp.
  - exact Hd.
  - apply IH.
    + apply dict_set_values; [exact Hd | apply (Hp sym digs); now left].
    + intros; eapply Hp; eauto.
Qed.

Lemma dict_set_nonempty (d : dict) (k : string) (v : Z) : dict_set d k v <> [].
Proof.
  destruct d as [|[k0 v0] d]; simpl; [discriminate|].
  destruct (String.eqb k0 k); discriminate.
Qed.

Lemma dict_fold_nonempty (pairs : list (str * str)) (d : dict) :
  d <> [] ->
  fold_left (fun d ec => dict_set d (string_of_list_ascii (fst ec))
                           (count_of (snd ec))) pairs d <> [].
Proof.
  revert d. induction pairs as [|p pairs IH]; simpl; intros d Hd; auto.
  apply IH, dict_set_nonempty.
Qed.

Lemma dict_of_pairs_empty (pairs : list (str * str)) :
  dict_of_pairs pairs = [] <-> pairs = [].
Proof.
  split; [|intros ->; reflexivity].
  destruct pairs as [|p pairs]; [reflexivity|].
  unfold dict_of_pairs. cbn [fold_left]. intro H. exfalso.
  revert H. apply dict_fold_nonempty, dict_set_nonempty.
Qed.

Lemma dict_get_set (d : dict) (k : string) (v default : Z) :
  dict_get (dict_set d k v) k default = v.
Proof.
  induction d as [|[k0 v0] d IH]; simpl.
  - now rewrite String.eqb_refl.
  - destruct (String.eqb k0 k) eqn:He; simpl; rewrite He; auto.
Qed.

Lemma span_separator (p : ascii -> bool) (a b : str) (c : ascii) :
  p c = false ->
  span p (a ++ c :: b) = (fst (span p a), snd (span p a) ++ c :: b).
Proof.
  intro Hc. induction a as [|x a IH]; simpl.
  - now rewrite Hc.
  - destruct (p x); [|reflexivity].
    rewrite IH. destruct (span p a). reflexivity.
Qed.

(** A character that is neither a letter nor a digit ends the match before
    it and is passed over. *)
Lemma findall_separator (s1 s2 : str) (c : ascii) :
  is_upper c = false -> is_lower c = false -> is_digit c = false ->
  findall (s1 ++ c :: s2) = findall s1 ++ findall s2.
Proof.
  intros Hu Hl Hd.
  remember (List.length s1) as n eqn:Hn. revert s1 Hn.
  induction n as [n IH] using lt_wf_ind. intros s1 Hn.
  destruct s1 as [|x r]; simpl.
  - now rewrite findall_cons, Hu.
  - rewrite !findall_cons. simpl in Hn. destruct (is_upper x).
    + rewrite (span_separator is_lower r s2 c Hl). simpl.
      rewrite (span_separator is_digit _ s2 c Hd). simpl. f_equal.
      pose proof (span_length is_lower r).
      pose proof (span_length is_digit (snd (span is_lower r))).
      eapply IH; [|reflexivity]. lia.
    + eapply IH; [|reflexivity]. lia.
Qed.

End Counts.

(** ** Rank, and the shape of a parsed reaction *)

Section Rank.

Lemma filter_nil_iff (A : Type) (f : A -> bool) (l : list A) :
  filter f l = [] <-> forall x, In x l -> f x = false.
Proof.
  induction l as [|a l IH]; simpl.
  - split; [contradiction | reflexivity].
  - destruct (f a) eqn:Ha; split.
    + discriminate.
    + intro H. specialize (H a (or_introl eq_refl)). congruence.
    + intros H x [<-|Hin]; [assumption | now apply IH].
    + intro H. apply IH. intros; apply H; now right.
Qed.

Lemma free_column_test (pivots : list nat) (j : nat) :
  negb (existsb (Nat.eqb j) pivots) = false <-> In j pivots.
Proof.
  rewrite negb_false_iff, existsb_exists. split.
  - intros [k [Hin Hk]]. apply Nat.eqb_eq in Hk. now subst.
  - intro Hin. exists j. split; [assumption | apply Nat.eqb_refl].
Qed.


Lemma split_from_nonempty (fuel : nat) (sep s cur : str) :
  split_from fuel sep s cur <> [].
Proof.
  revert s cur. induction fuel as [|f IH]; intros s cur; simpl.
  - discriminate.
  - destruct s as [|c r]; [discriminate|].
    destruct (is_prefix sep (c :: r)); [discriminate | apply IH].
Qed.

Lemma compounds_of_nonempty (side : str) : compounds_of side <> [].
Proof.
  unfold compounds_of, split. intro H. apply map_eq_nil in H.
  revert H. apply split_from_nonempty.
Qed.

Lemma parse_reaction_some (reaction : string) (rs ps : list string) :
  parse_reaction reaction = Some (rs, ps) ->
  exists lhs rhs,
    split arrow (list_ascii_of_string reaction) = [lhs; rhs]
    /\ rs = compounds_of lhs /\ ps = compounds_of rhs.
Proof.
  unfold parse_reaction.
  destruct (split arrow (list_ascii_of_string reaction))
    as [|lhs [|rhs [|x l]]]; try discriminate.
  intro H. injection H as <- <-. now exists lhs, rhs.
Qed.

Lemma balance_balanced (reaction : string) (rs ps : list string)
  (rc pc : list Z) :
  balance reaction = Ok (Balanced rs ps rc pc) ->
  parse_reaction reaction = Some (rs, ps)
  /\ exists v basis,
      nullspace (Matrix_of (build_matrix rs ps (get_elements rs ps)))
      = v :: basis
      /\ rc = firstn (List.length rs) (simplified v)
      /\ pc = skipn (List.length rs) (simplified v).
Proof.
  intro H. pose proof (balance_cases reaction) as Hc.
  destruct (parse_reaction reaction) as [[rs' ps']|].
  - cbv zeta in Hc.
    destruct (nullspace _) as [|v basis] eqn:Hn; rewrite Hc in H;
      [discriminate|].
    injection H as <- <- <- <-. split; [reflexivity|]. now exists v, basis.
  - rewrite Hc in H. discriminate.
Qed.

Lemma simplified_sgn (v : vec) (i : nat) :
  (2 <= List.length v)%nat ->
  (exists c, In c v /\ c <> 0%Qc) ->
  Z.sgn (nth i (simplified v) 0) = Z.sgn (Qnum (entry v i)).
Proof.
  intros Hlen Hnz. destruct (scale_factor_pos v) as [HL Hdiv].
  rewrite simplified_map.
  set (L := scale_factor v) in *. set (l := map (scaled L) v).
  assert (Hd : 0 < divisor l).
  { pose proof (divisor_nonzero _ (scaled_nonzero v Hnz)) as Hd.
    fold L in Hd. fold l in Hd.
    rewrite divisor_nonneg in * by (unfold l; now rewrite length_map).
    pose proof (gcd_list_nonneg l). lia. }
  destruct (Nat.lt_ge_cases i (List.length v)) as [Hi|Hi].
  - rewrite (nth_indep _ 0 (scaled L 0%Qc / divisor l))
      by (now rewrite length_map).
    rewrite (map_nth (fun c => scaled L c / divisor l)).
    fold (entry v i).
    assert (Hin : In (entry v i) v) by (apply nth_In, Hi).
    destruct (divisor_divide l (scaled L (entry v i))) as [k Hk];
      [unfold l; now apply in_map|].
    rewrite <- (scaled_sgn L (entry v i) HL (Hdiv _ Hin)).
    rewrite Hk, Z.div_mul by lia.
    rewrite Z.sgn_mul, (Z.sgn_pos (divisor l)) by assumption. ring.
  - rewrite nth_overflow by (now rewrite length_map).
    unfold entry. rewrite (nth_overflow v) by assumption. reflexivity.
Qed.

End Rank.

(** ** Splitting at the arrow *)

Section Splitting.

Lemma split_from_step (f : nat) (sep : str) (c : ascii) (r cur : str) :
  split_from (S f) sep (c :: r) cur
  = if is_prefix sep (c :: r)
    then rev cur :: split_from f sep (skipn (List.length sep) (c :: r)) []
    else split_from f sep r (c :: cur).
Proof. reflexivity. Qed.

Lemma contains_cons (sep : str) (c : ascii) (s : str) :
  contains sep (c :: s) = false ->
  is_prefix sep (c :: s) = false /\ contains sep s = false.
Proof. cbn [contains]. intro H. now apply orb_false_iff in H. Qed.

(** A string without the separator is the only piece of its split. *)
Lemma split_from_absent (sep s cur : str) (fuel : nat) :
  (List.length s <= fuel)%nat ->
  contains sep s = false ->
  split_from fuel sep s cur = [(rev cur ++ s)%list].
Proof.
  revert cur fuel. induction s as [|c r IH]; intros cur fuel Hf H.
  - rewrite app_nil_r. destruct fuel; reflexivity.
  - destruct (contains_cons _ _ _ H) as [Hp Hr].
    destruct fuel as [|f]; [simpl in Hf; lia|].
    rewrite split_from_step, Hp, (IH (c :: cur) f) by (simpl in Hf; auto; lia).
    simpl. now rewrite <- app_assoc.
Qed.

Lemma arrow_not_across (c : ascii) (l r : str) :
  is_prefix arrow (c :: l) = false ->
  is_prefix arrow (c :: l ++ arrow ++ r) = false.
Proof.
  change arrow with ["-"%char; ">"%char].
  destruct l as [|x l]; cbn [is_prefix app]; intro H; [|exact H].
  change (Ascii.eqb ">" "-") with false.
  destruct (Ascii.eqb "-" c); reflexivity.
Qed.

(** The first arrow of a string is found where the part before it, free of
    arrows, ends. *)
Lemma split_from_arrow (l r cur : str) (fuel : nat) :
  (List.length (l ++ arrow ++ r) <= fuel)%nat ->
  contains arrow l = false ->
  contains arrow r = false ->
  split_from fuel arrow (l ++ arrow ++ r) cur = [(rev cur ++ l)%list; r].
Proof.
  revert cur fuel. induction l as [|c l IH]; intros cur fuel Hf Hl Hr.
  - change ([] ++ arrow ++ r)%list with ("-"%char :: ">"%char :: r) in *.
    destruct fuel as [|f]; [simpl in Hf; lia|].
    rewrite split_from_step.
    change (is_prefix arrow ("-"%char :: ">"%char :: r)) with true.
    change (skipn (List.length arrow) ("-"%char :: ">"%char :: r)) with r.
    rewrite (split_from_absent arrow r [] f) by (simpl in Hf; auto; lia).
    now rewrite app_nil_r.
  - destruct (contains_cons _ _ _ Hl) as [Hp Hl'].
    destruct fuel as [|f]; [simpl in Hf; lia|].
    change ((c :: l) ++ arrow ++ r)%list with (c :: l ++ arrow ++ r)%list in *.
    cbn [List.length] in Hf.
    rewrite split_from_step, (arrow_not_across c l r Hp).
    rewrite (IH (c :: cur) f) by (auto; lia).
    simpl. now rewrite <- app_assoc.
Qed.

Lemma lstrip_blank (s : str) :
  (forall c, In c s -> is_space c = true) -> lstrip s = [].
Proof.
  induction s as [|c r IH]; intro H; simpl; [reflexivity|].
  rewrite (H c) by now left. apply IH. intros; apply H; now right.
Qed.

Lemma blank_without_plus (s : str) :
  (forall c, In c s -> is_space c = true) -> contains plus s = false.
Proof.
  change plus with ["+"%char].
  induction s as [|c r IH]; intro H; cbn [contains is_prefix];
    [reflexivity|].
  rewrite IH by (intros; apply H; now right).
  destruct (Ascii.eqb "+" c) eqn:He; [|reflexivity].
  apply Ascii.eqb_eq in He. subst c.
  specialize (H "+"%char (or_introl eq_refl)). discriminate H.
Qed.

(** A side made of white space only is one empty token. *)
Lemma compounds_of_blank (s : str) :
  (forall c, In c s -> is_space c = true) -> compounds_of s = [EmptyString].
Proof.
  intro H. unfold compounds_of, split.
  rewrite split_from_absent by (auto using blank_without_plus).
  simpl. unfold strip. now rewrite (lstrip_blank s H).
Qed.

End Splitting.

(** * The claims *)

Section Claims.

Local Open Scope string_scope.

Lemma list_ascii_of_string_app (a b : string) :
  list_ascii_of_string (a ++ b)
  = (list_ascii_of_string a ++ list_ascii_of_string b)%list.
Proof. induction a as [|c a IH]; simpl; [reflexivity | now rewrite IH]. Qed.

(** Whenever [balance] returns a balanced reaction, every side has one
    coefficient for each of its compounds, and the rows of the matrix are
    annihilated: for every element of the universe the coefficients times
    the counts that [parse_compound] gives sum to the same number on both
    sides. *)
Lemma balanced_conserves_parsed (reaction : string)
  (reactants products : list string) (reactant_coeffs product_coeffs : list Z) :
  balance reaction
  = Ok (Balanced reactants products reactant_coeffs product_coeffs) ->
  List.length reactant_coeffs = List.length reactants
  /\ List.length product_coeffs = List.length products
  /\ forall element,
      In element (get_elements reactants products) ->
      atoms element reactant_coeffs reactants
      = atoms element product_coeffs products.
Proof.
  intro H.
  destruct (balance_balanced _ _ _ _ _ H) as [_ [v [basis [Hn [-> ->]]]]].
  set (els := get_elements reactants products) in *.
  set (M := Matrix_of (build_matrix reactants products els)) in *.
  assert (Hv : In v (nullspace M)) by (rewrite Hn; now left).
  destruct (nullspace_free_entry M v Hv) as [Hlen [j [Hj _]]].
  assert (Hels : els <> []).
  { intro He. unfold M in Hj. rewrite He in Hj. simpl in Hj. lia. }
  unfold M in Hlen. rewrite (cols_build_matrix _ _ _ Hels) in Hlen.
  pose proof (length_simplified v) as Hls.
  split; [rewrite length_firstn; lia|].
  split; [rewrite length_skipn; lia|].
  intros e He.
  assert (Hdot : dot (map Qc_of_Z (build_row reactants products e)) v = 0%Qc).
  { apply (nullspace_sound M); auto.
    - apply well_formed_build_matrix.
    - unfold M, Matrix_of, build_matrix. simpl. now do 2 apply in_map. }
  pose proof (dotZ_simplified _ v (nullspace_nonzero M v Hv) Hdot) as Hz.
  rewrite dotZ_build_row in Hz. lia.
Qed.

(** C2. On ["CH3COOH"], where [C], [H] and [O] each match twice,
    [parse_compound] keeps for each symbol the count of its last match
    (1, 1 and 1) and not the sum of its counts (2, 4 and 2); the reaction
    with oxygen is then balanced with 4, 3, 4 and 2 in place of 1, 2, 2
    and 2. *)
Theorem parse_compound_keeps_last_count :
  parse_compound "CH3COOH" = [("C", 1); ("H", 1); ("O", 1)]
  /\ dict_get (parse_compound "CH3COOH") "H" 0 <> 3 + 1
  /\ balance_reaction "CH3COOH + O2 -> CO2 + H2O"
     = Ok "4 CH3COOH + 3 O2 -> 4 CO2 + 2 H2O".
Proof.
  split; [vm_compute; reflexivity|].
  split; [vm_compute; discriminate | vm_compute; reflexivity].
Qed.

(** A pair stored last decides the count of its symbol, whatever was stored
    for the symbol before. *)
Lemma dict_of_pairs_last (pairs : list (str * str)) (sym digs : str) :
  dict_get (dict_of_pairs (pairs ++ [(sym, digs)])%list)
    (string_of_list_ascii sym) 0
  = count_of digs.
Proof.
  unfold dict_of_pairs. rewrite fold_left_app. simpl. apply dict_get_set.
Qed.

(** C3, as the code has it.  [balance] checks no sign: the coefficients it
    returns are what [simplify_coefficients] makes of the first basis vector,
    and each has the sign of the entry of that vector it comes from, so that
    zero and negative coefficients are returned as they are. *)
Theorem balance_coefficient_signs (reaction : string)
  (reactants products : list string) (reactant_coeffs product_coeffs : list Z) :
  balance reaction
  = Ok (Balanced reactants products reactant_coeffs product_coeffs) ->
  exists v basis,
    nullspace (Matrix_of (build_matrix reactants products
                            (get_elements reactants products)))
    = v :: basis
    /\ simplify_coefficients v = Ok (reactant_coeffs ++ product_coeffs)%list
    /\ forall i,
        Z.sgn (nth i (reactant_coeffs ++ product_coeffs)%list 0)
        = Z.sgn (Qnum (entry v i)).
Proof.
  intro H.
  destruct (balance_balanced _ _ _ _ _ H) as [Hp [v [basis [Hn [-> ->]]]]].
  exists v, basis. split; [exact Hn|]. rewrite firstn_skipn.
  set (els := get_elements reactants products) in *.
  set (M := Matrix_of (build_matrix reactants products els)) in *.
  assert (Hv : In v (nullspace M)) by (rewrite Hn; now left).
  pose proof (nullspace_nonzero M v Hv) as Hnz.
  split; [now apply simplify_coefficients_ok|].
  intro i. apply simplified_sgn; [|exact Hnz].
  destruct (nullspace_free_entry M v Hv) as [Hlen [j [Hj _]]].
  assert (Hels : els <> []).
  { intro He. unfold M in Hj. rewrite He in Hj. simpl in Hj. lia. }
  unfold M in Hlen. rewrite (cols_build_matrix _ _ _ Hels) in Hlen.
  destruct (parse_reaction_some _ _ _ Hp) as [lhs [rhs [_ [Hr Hq]]]].
  pose proof (compounds_of_nonempty lhs). pose proof (compounds_of_nonempty rhs).
  destruct reactants; [congruence|]. destruct products; [congruence|].
  simpl in Hlen. lia.
Qed.

Lemma balance_coefficient_signs_witness :
  balance "H2 + H2 -> H2" = Ok (Balanced ["H2"; "H2"] ["H2"] [-1; 1] [0])
  /\ exists v basis,
      nullspace (Matrix_of (build_matrix ["H2"; "H2"] ["H2"]
                              (get_elements ["H2"; "H2"] ["H2"])))
      = v :: basis
      /\ simplify_coefficients v = Ok [-1; 1; 0]
      /\ forall i, Z.sgn (nth i [-1; 1; 0] 0) = Z.sgn (Qnum (entry v i)).
Proof.
  split; [vm_compute; reflexivity|].
  apply (balance_coefficient_signs "H2 + H2 -> H2" ["H2"; "H2"] ["H2"] [-1; 1] [0]).
  vm_compute; reflexivity.
Defined.

(** C3, as stated, fails: the first basis vector of ["H2 + H2 -> H2"] is
    (-1, 1, 0); it is normalised without an error, and the reaction is
    returned with the coefficients -1, 1 and 0. *)
Lemma nonpositive_coefficients_returned :
  map (map this) (nullspace (Matrix_of [[2; 2; -2]]))
  = [[(-1 # 1)%Q; (1 # 1)%Q; (0 # 1)%Q]; [(1 # 1)%Q; (0 # 1)%Q; (1 # 1)%Q]]
  /\ simplify_coefficients [Qc_of_Z (-1); Qc_of_Z 1; Qc_of_Z 0]
     = Ok [-1; 1; 0]
  /\ balance "H2 + H2 -> H2" = Ok (Balanced ["H2"; "H2"] ["H2"] [-1; 1] [0])
  /\ balance_reaction "H2 + H2 -> H2" = Ok "-1 H2 + 1 H2 -> 0 H2".
Proof. repeat split; vm_compute; reflexivity. Qed.

(** C4. For every rational vector with a non-zero entry,
    [simplify_coefficients] returns integers whose greatest common divisor
    is 1: the only integers that divide them all are 1 and -1. *)
Theorem simplify_coefficients_coprime (coefficients : vec) :
  (exists c, In c coefficients /\ c <> 0%Qc) ->
  exists l,
    simplify_coefficients coefficients = Ok l
    /\ gcd_list l = 1
    /\ forall d, (forall x, In x l -> (d | x)) -> d = 1 \/ d = -1.
Proof.
  intro Hnz. exists (simplified coefficients).
  assert (Hg : gcd_list (simplified coefficients) = 1).
  { unfold simplified.
    apply gcd_list_quotients, divisor_nonzero, scaled_nonzero, Hnz. }
  split; [now apply simplify_coefficients_ok|]. split; [exact Hg|].
  intros d Hd. apply gcd_list_greatest in Hd. rewrite Hg in Hd.
  apply Z.divide_1_r in Hd. exact Hd.
Qed.

Lemma simplify_coefficients_coprime_witness :
  exists l,
    simplify_coefficients [Q2Qc (3 # 2); Q2Qc (9 # 4)] = Ok l
    /\ gcd_list l = 1
    /\ forall d, (forall x, In x l -> (d | x)) -> d = 1 \/ d = -1.
Proof.
  apply (simplify_coefficients_coprime [Q2Qc (3 # 2); Q2Qc (9 # 4)]).
  exists (Q2Qc (3 # 2)). split; [now left|].
  intro H. apply (f_equal this) in H. vm_compute in H. discriminate H.
Defined.

(** C6, as the code has it.  For a string made of a left side, the arrow
    and a right side, neither side holding an arrow, [parse_reaction]
    returns for each side the stripped pieces between its [+] signs, empty
    pieces included.  Each list has at least one token, and a side of white
    space only, or with nothing at all, is the list of one empty token. *)
Theorem parse_reaction_sides (lhs rhs : string) :
  contains arrow (list_ascii_of_string lhs) = false ->
  contains arrow (list_ascii_of_string rhs) = false ->
  parse_reaction (lhs ++ "->" ++ rhs)
  = Some (compounds_of (list_ascii_of_string lhs),
          compounds_of (list_ascii_of_string rhs))
  /\ compounds_of (list_ascii_of_string lhs) <> []
  /\ compounds_of (list_ascii_of_string rhs) <> []
  /\ ((forall c, In c (list_ascii_of_string lhs) -> is_space c = true) ->
      compounds_of (list_ascii_of_string lhs) = [EmptyString])
  /\ ((forall c, In c (list_ascii_of_string rhs) -> is_space c = true) ->
      compounds_of (list_ascii_of_string rhs) = [EmptyString]).
Proof.
  intros Hl Hr. split.
  - unfold parse_reaction, split.
    rewrite !list_ascii_of_string_app.
    change (list_ascii_of_string "->") with arrow.
    now rewrite split_from_arrow by auto.
  - repeat split; try apply compounds_of_nonempty; apply compounds_of_blank.
Qed.

Lemma parse_reaction_sides_witness :
  parse_reaction (" " ++ "->" ++ " H2O + ")
  = Some ([EmptyString], ["H2O"; EmptyString]).
Proof.
  destruct (parse_reaction_sides " " " H2O + ") as [H _];
    [reflexivity | reflexivity |].
  rewrite H. vm_compute. reflexivity.
Defined.

(** C6, as stated, fails: a side without a compound gives the list of one
    empty token, and the reaction is balanced with it. *)
Lemma parse_reaction_empty_side :
  parse_reaction "-> H2O" = Some ([EmptyString], ["H2O"])
  /\ parse_reaction "H2 + -> " = Some (["H2"; EmptyString], [EmptyString])
  /\ balance_reaction "-> H2O" = Ok "1  -> 0 H2O".
Proof. repeat split; vm_compute; reflexivity. Qed.

(** C7. On ["H2 + O2 -> H2O"] the balancer returns the coefficients 2 and 1
    for the reactants and 2 for the product, with the compounds as they were
    written, in their order. *)
Theorem balance_hydrogen_oxygen :
  balance "H2 + O2 -> H2O" = Ok (Balanced ["H2"; "O2"] ["H2O"] [2; 1] [2])
  /\ balance_reaction "H2 + O2 -> H2O" = Ok "2 H2 + 1 O2 -> 2 H2O".
Proof. split; vm_compute; reflexivity. Qed.



End Claims.

(** * Further properties of the code *)

(** ** The element universe and the matrix *)

Section Universe.

Local Open Scope string_scope.

Lemma insert_sorted_In (x e : string) (l : list string) :
  In e (insert_sorted x l) <-> e = x \/ In e l.
Proof.
  induction l as [|y l IH]; simpl; [intuition auto|].
  destruct (String.leb x y); simpl; [intuition auto|].
  rewrite IH. intuition auto.
Qed.

Lemma sorted_In (e : string) (l : list string) : In e (sorted l) <-> In e l.
Proof.
  induction l as [|x l IH]; simpl; [tauto|].
  rewrite insert_sorted_In, IH. intuition auto.
Qed.

Lemma insert_sorted_NoDup (x : string) (l : list string) :
  ~ In x l -> NoDup l -> NoDup (insert_sorted x l).
Proof.
  induction l as [|y l IH]; simpl; intros Hx Hl.
  - repeat constructor. tauto.
  - inversion Hl as [|? ? Hy Hl']; subst.
    destruct (String.leb x y).
    + constructor; [simpl; tauto | assumption].
    + constructor; [|apply IH; tauto].
      rewrite insert_sorted_In. intros [->|Hin]; tauto.
Qed.

Lemma sorted_NoDup (l : list string) : NoDup l -> NoDup (sorted l).
Proof.
  induction l as [|x l IH]; simpl; intro H; [constructor|].
  inversion H; subst. apply insert_sorted_NoDup; auto.
  now rewrite sorted_In.
Qed.

Lemma insert_sorted_HdRel (x y : string) (l : list string) :
  string_le y x -> HdRel string_le y l -> HdRel string_le y (insert_sorted x l).
Proof.
  intros Hyx Hl. destruct l as [|z l]; simpl; [now constructor|].
  destruct (String.leb x z); constructor; auto.
  now inversion Hl.
Qed.

Lemma insert_sorted_Sorted (x : string) (l : list string) :
  Sorted string_le l -> Sorted string_le (insert_sorted x l).
Proof.
  induction l as [|y l IH]; simpl; intro H; [repeat constructor|].
  inversion H as [|? ? Hs Hh]; subst.
  destruct (String.leb x y) eqn:Hxy.
  - constructor; [assumption | now constructor].
  - constructor; [now apply IH|].
    apply insert_sorted_HdRel; [|assumption].
    destruct (String.leb_total x y) as [Hc|Hc]; [congruence | exact Hc].
Qed.

Lemma sorted_Sorted (l : list string) : Sorted string_le (sorted l).
Proof.
  induction l as [|x l IH]; simpl; [constructor|].
  now apply insert_sorted_Sorted.
Qed.

Lemma set_add_In (x e : string) (s : list string) :
  In e (set_add x s) <-> e = x \/ In e s.
Proof.
  unfold set_add. destruct (existsb (String.eqb x) s) eqn:He.
  - apply existsb_exists in He. destruct He as [y [Hy Hxy]].
    apply String.eqb_eq in Hxy. subst y. intuition (subst; auto).
  - rewrite in_app_iff. simpl. intuition auto.
Qed.

Lemma set_add_NoDup (x : string) (s : list string) :
  NoDup s -> NoDup (set_add x s).
Proof.
  intro H. unfold set_add. destruct (existsb (String.eqb x) s) eqn:He; auto.
  apply NoDup_app; [assumption | repeat constructor; simpl; tauto|].
  intros a Ha [Heq|[]]. subst a.
  assert (existsb (String.eqb x) s = true); [|congruence].
  apply existsb_exists. exists x. split; auto. apply String.eqb_refl.
Qed.

Lemma set_update_spec (keys s : list string) :
  (NoDup s -> NoDup (set_update s keys))
  /\ forall e, In e (set_update s keys) <-> In e s \/ In e keys.
Proof.
  unfold set_update. revert s.
  induction keys as [|k keys IH]; intro s; simpl; [intuition auto|].
  destruct (IH (set_add k s)) as [H1 H2]. split.
  - intro H. now apply H1, set_add_NoDup.
  - intro e. rewrite H2, set_add_In. intuition auto.
Qed.

(** The set that [get_elements] has built after the compounds of [l]. *)
Lemma collect_spec (l : list string) (s : list string) :
  let collected :=
    fold_left (fun elements compound =>
                 set_update elements (dict_keys (parse_compound compound)))
      l s in
  (NoDup s -> NoDup collected)
  /\ forall e,
      In e collected
      <-> In e s
          \/ exists compound,
              In compound l /\ In e (dict_keys (parse_compound compound)).
Proof.
  revert s. induction l as [|c l IH]; intro s; simpl.
  - split; [auto|]. intro e. split; [auto|].
    intros [H|[x [[] _]]]. exact H.
  - destruct (IH (set_update s (dict_keys (parse_compound c)))) as [H1 H2].
    destruct (set_update_spec (dict_keys (parse_compound c)) s) as [G1 G2].
    split; [auto|]. intro e. rewrite H2, G2. split.
    + intros [[H|H]|[x [Hx He]]]; eauto.
    + intros [H|[x [[<-|Hx] He]]]; eauto.
Qed.

(** X1. [get_elements] returns the symbols in ascending order, each one
    once. *)
Theorem get_elements_sorted (reactants products : list string) :
  Sorted string_le (get_elements reactants products)
  /\ NoDup (get_elements reactants products).
Proof.
  unfold get_elements. split; [apply sorted_Sorted|].
  apply sorted_NoDup. apply (collect_spec (reactants ++ products)%list []).
  constructor.
Qed.

(** X2. A symbol is in the result of [get_elements] exactly when it is a key
    of the mapping of some reactant or product. *)
Theorem get_elements_keys (reactants products : list string) (e : string) :
  In e (get_elements reactants products)
  <-> exists compound,
      In compound (reactants ++ products)%list
      /\ In e (dict_keys (parse_compound compound)).
Proof.
  unfold get_elements. rewrite sorted_In.
  rewrite (proj2 (collect_spec (reactants ++ products)%list []) e).
  simpl. tauto.
Qed.

Lemma dict_get_absent (d : dict) (k : string) (default : Z) :
  ~ In k (dict_keys d) -> dict_get d k default = default.
Proof.
  induction d as [|[k0 v0] d IH]; simpl; intro H; [reflexivity|].
  destruct (String.eqb k0 k) eqn:He.
  - apply String.eqb_eq in He. tauto.
  - apply IH. tauto.
Qed.

Lemma nth_build_row_reactant (reactants products : list string)
  (element : string) (j : nat) :
  (j < List.length reactants)%nat ->
  nth j (build_row reactants products element) 0%Z
  = dict_get (parse_compound (nth j reactants EmptyString)) element 0.
Proof.
  intro Hj. unfold build_row. rewrite app_nth1 by (now rewrite length_map).
  rewrite (nth_indep _ 0%Z
             (dict_get (parse_compound EmptyString) element 0))
    by (now rewrite length_map).
  apply (map_nth (fun compound => dict_get (parse_compound compound) element 0)).
Qed.

Lemma nth_build_row_product (reactants products : list string)
  (element : string) (j : nat) :
  (j < List.length products)%nat ->
  nth (List.length reactants + j) (build_row reactants products element) 0%Z
  = (- dict_get (parse_compound (nth j products EmptyString)) element 0)%Z.
Proof.
  intro Hj. unfold build_row.
  rewrite app_nth2 by (rewrite length_map; lia).
  rewrite length_map. replace (_ + j - _)%nat with j by lia.
  rewrite (nth_indep _ 0%Z
             (- dict_get (parse_compound EmptyString) element 0)%Z)
    by (now rewrite length_map).
  apply (map_nth
           (fun compound => (- dict_get (parse_compound compound) element 0)%Z)).
Qed.

(** X3. [build_matrix] has one row for each element and one column for each
    compound, reactants first.  The entry of an element in a reactant column
    is its count in that reactant; in a product column it is the negated
    count; and it is 0 where the element is not a key of the compound. *)
Theorem build_matrix_entries (reactants products elements : list string)
  (i : nat) :
  (i < List.length elements)%nat ->
  let matrix := build_matrix reactants products elements in
  let row := nth i matrix [] in
  let element := nth i elements EmptyString in
  List.length matrix = List.length elements
  /\ List.length row = (List.length reactants + List.length products)%nat
  /\ (forall j, (j < List.length reactants)%nat ->
        let compound := nth j reactants EmptyString in
        nth j row 0%Z = dict_get (parse_compound compound) element 0
        /\ (~ In element (dict_keys (parse_compound compound)) ->
            nth j row 0%Z = 0%Z))
  /\ (forall j, (j < List.length products)%nat ->
        let compound := nth j products EmptyString in
        nth (List.length reactants + j) row 0%Z
        = (- dict_get (parse_compound compound) element 0)%Z
        /\ (~ In element (dict_keys (parse_compound compound)) ->
            nth (List.length reactants + j) row 0%Z = 0%Z)).
Proof.
  intros Hi matrix row element.
  assert (Hrow : row = build_row reactants products element).
  { unfold row, matrix, build_matrix, element.
    rewrite (nth_indep _ [] (build_row reactants products EmptyString))
      by (now rewrite length_map).
    apply (map_nth (build_row reactants products)). }
  split; [apply length_map|]. rewrite Hrow.
  split; [unfold build_row; now rewrite length_app, !length_map|].
  split; intros j Hj compound.
  - rewrite nth_build_row_reactant by assumption. split; [reflexivity|].
    apply dict_get_absent.
  - rewrite nth_build_row_product by assumption. split; [reflexivity|].
    intro H. fold compound. now rewrite dict_get_absent.
Qed.

Lemma build_matrix_entries_witness :
  nth 0 (nth 1 (build_matrix ["H2"; "O2"] ["H2O"] ["H"; "O"]) []) 0%Z = 0%Z
  /\ nth 2 (nth 1 (build_matrix ["H2"; "O2"] ["H2O"] ["H"; "O"]) []) 0%Z
     = (- 1)%Z.
Proof.
  destruct (build_matrix_entries ["H2"; "O2"] ["H2O"] ["H"; "O"] 1)
    as [_ [_ [Hr Hp]]]; [simpl; lia|].
  split.
  - apply (Hr 0%nat); [simpl; lia|]. vm_compute. intuition discriminate.
  - assert (H0 : (0 < List.length ["H2O"])%nat) by (simpl; lia).
    exact (proj1 (Hp 0%nat H0)).
Defined.

End Universe.

(** ** The mapping of a formula *)

Section Formula.

Local Open Scope string_scope.

Lemma dict_set_keys (d : dict) (k : string) (v : Z) :
  dict_keys (dict_set d k v)
  = if existsb (String.eqb k) (dict_keys d) then dict_keys d
    else (dict_keys d ++ [k])%list.
Proof.
  induction d as [|[k0 v0] d IH]; simpl; [reflexivity|].
  rewrite (String.eqb_sym k k0).
  destruct (String.eqb k0 k) eqn:He; simpl; [reflexivity|].
  rewrite IH. now destruct (existsb (String.eqb k) (dict_keys d)).
Qed.

Lemma dict_of_pairs_keys (pairs : list (str * str)) (d : dict) :
  let d' := fold_left (fun d ec => dict_set d (string_of_list_ascii (fst ec))
                                     (count_of (snd ec))) pairs d in
  (NoDup (dict_keys d) -> NoDup (dict_keys d'))
  /\ forall k, In k (dict_keys d')
               <-> In k (dict_keys d) \/ In k (map symbol_of pairs).
Proof.
  revert d. induction pairs as [|p pairs IH]; intro d; simpl.
  - intuition auto.
  - destruct (IH (dict_set d (string_of_list_ascii (fst p))
                    (count_of (snd p)))) as [H1 H2].
    assert (Hk : dict_keys (dict_set d (string_of_list_ascii (fst p))
                              (count_of (snd p)))
                 = set_add (symbol_of p) (dict_keys d)).
    { rewrite dict_set_keys. reflexivity. }
    split.
    + intro Hd. apply H1. rewrite Hk. now apply set_add_NoDup.
    + intro k. rewrite H2, Hk, set_add_In. unfold symbol_of.
      intuition auto.
Qed.

(** Every match is an upper-case letter followed by lower-case letters,
    all of them characters of the string. *)
Lemma findall_symbols (s : str) (sym digs : str) :
  In (sym, digs) (findall s) ->
  exists c lows,
    sym = c :: lows /\ is_upper c = true
    /\ (forall x, In x lows -> is_lower x = true)
    /\ forall x, In x sym -> In x s.
Proof.
  remember (List.length s) as n eqn:Hn. revert s Hn.
  induction n as [n IH] using lt_wf_ind. intros s Hn.
  destruct s as [|c r]; [simpl; contradiction|].
  rewrite findall_cons. destruct (is_upper c) eqn:Hup.
  - pose proof (span_length is_lower r) as L1.
    pose proof (span_length is_digit (snd (span is_lower r))) as L2.
    intros [Heq|Hin].
    + injection Heq as <- <-. exists c, (fst (span is_lower r)).
      repeat split; auto.
      * intros x Hx. eapply span_all; eauto.
      * intros x [<-|Hx]; [now left|]. right.
        apply (span_incl is_lower). now left.
    + simpl in Hn.
      set (r2 := snd (span is_digit (snd (span is_lower r)))) in *.
      assert (Hlt : (List.length r2 < n)%nat) by lia.
      destruct (IH (List.length r2) Hlt r2 eq_refl Hin)
        as [c0 [lows [H1 [H2 [H3 H4]]]]].
      exists c0, lows. repeat split; auto.
      intros x Hx. right. apply (span_incl is_lower). right.
      apply (span_incl is_digit). right. now apply H4.
  - intro Hin. simpl in Hn.
    assert (Hlt : (List.length r < n)%nat) by lia.
    destruct (IH (List.length r) Hlt r eq_refl Hin)
      as [c0 [lows [H1 [H2 [H3 H4]]]]].
    exists c0, lows. repeat split; auto. intros x Hx. right. now apply H4.
Qed.

(** X4. The keys of the mapping of [parse_compound] are distinct, and each
    is an upper-case letter followed by lower-case letters only, all taken
    from the formula. *)
Theorem parse_compound_keys (compound : string) :
  NoDup (dict_keys (parse_compound compound))
  /\ forall element,
      In element (dict_keys (parse_compound compound)) ->
      exists c lows,
        list_ascii_of_string element = c :: lows
        /\ is_upper c = true
        /\ (forall x, In x lows -> is_lower x = true)
        /\ forall x, In x (c :: lows) ->
                     In x (list_ascii_of_string compound).
Proof.
  unfold parse_compound, dict_of_pairs.
  destruct (dict_of_pairs_keys (findall (list_ascii_of_string compound)) [])
    as [H1 H2].
  split; [apply H1; constructor|].
  intros element Hin. apply H2 in Hin. destruct Hin as [[]|Hin].
  apply in_map_iff in Hin. destruct Hin as [[sym digs] [<- Hin]].
  destruct (findall_symbols _ _ _ Hin) as [c [lows [-> [Hu [Hl Hs]]]]].
  exists c, lows. unfold symbol_of. simpl fst.
  rewrite list_ascii_of_string_of_list_ascii. auto.
Qed.

Lemma parse_compound_keys_witness :
  exists c lows,
    list_ascii_of_string "Na" = c :: lows
    /\ is_upper c = true
    /\ (forall x, In x lows -> is_lower x = true)
    /\ forall x, In x (c :: lows) -> In x (list_ascii_of_string "NaCl").
Proof.
  apply (proj2 (parse_compound_keys "NaCl") "Na"). vm_compute. auto.
Defined.

Lemma dict_get_set_other (d : dict) (k k' : string) (v default : Z) :
  k <> k' -> dict_get (dict_set d k v) k' default = dict_get d k' default.
Proof.
  intro Hne. induction d as [|[k0 v0] d IH]; simpl.
  - apply String.eqb_neq in Hne. now rewrite Hne.
  - destruct (String.eqb k0 k) eqn:He; simpl.
    + apply String.eqb_eq in He. subst k0.
      apply String.eqb_neq in Hne. now rewrite Hne.
    + destruct (String.eqb k0 k'); auto.
Qed.

Lemma dict_get_fold (pairs : list (str * str)) (d : dict) (found : option Z)
  (k : string) (default : Z) :
  dict_get d k default
  = match found with Some v => v | None => default end ->
  dict_get
    (fold_left (fun d ec => dict_set d (string_of_list_ascii (fst ec))
                              (count_of (snd ec))) pairs d) k default
  = match
      fold_left
        (fun found m =>
           if String.eqb (symbol_of m) k then Some (count_of (snd m))
           else found) pairs found
    with
    | Some v => v
    | None => default
    end.
Proof.
  revert d found. induction pairs as [|p pairs IH]; intros d found H; simpl.
  - exact H.
  - apply IH. unfold symbol_of.
    destruct (String.eqb (string_of_list_ascii (fst p)) k) eqn:He.
    + apply String.eqb_eq in He. subst k. apply dict_get_set.
    + apply String.eqb_neq in He. now rewrite dict_get_set_other.
Qed.

(** X5. Looking a symbol up in the mapping of [parse_compound] gives the
    count of its last match in the formula, and the default when the symbol
    has no match. *)
Theorem parse_compound_get (compound : string) (symbol : string)
  (default : Z) :
  dict_get (parse_compound compound) symbol default
  = match last_count (findall (list_ascii_of_string compound)) symbol with
    | Some count => count
    | None => default
    end.
Proof.
  unfold parse_compound, dict_of_pairs, last_count.
  now apply dict_get_fold.
Qed.

Lemma dict_set_fresh (d : dict) (k : string) (v : Z) :
  ~ In k (dict_keys d) -> dict_set d k v = (d ++ [(k, v)])%list.
Proof.
  induction d as [|[k0 v0] d IH]; simpl; intro H; [reflexivity|].
  destruct (String.eqb k0 k) eqn:He.
  - apply String.eqb_eq in He. tauto.
  - rewrite IH by tauto. reflexivity.
Qed.

Lemma dict_fold_distinct (pairs : list (str * str)) (d : dict) :
  NoDup (dict_keys d ++ map symbol_of pairs) ->
  fold_left (fun d ec => dict_set d (string_of_list_ascii (fst ec))
                           (count_of (snd ec))) pairs d
  = (d ++ map entry_of pairs)%list.
Proof.
  revert d. induction pairs as [|p pairs IH]; intros d H; simpl.
  - now rewrite app_nil_r.
  - simpl in H.
    assert (Hp : ~ In (symbol_of p) (dict_keys d)).
    { intro Hin. apply NoDup_remove_2 in H. apply H.
      apply in_or_app. now left. }
    rewrite dict_set_fresh by exact Hp.
    rewrite IH.
    + now rewrite <- app_assoc.
    + unfold dict_keys. rewrite map_app. simpl. rewrite <- app_assoc.
      simpl. exact H.
Qed.

(** X6. When no symbol matches twice, the mapping of [parse_compound] lists
    the matches in their order, each with its count: nothing is
    overwritten. *)
Theorem parse_compound_distinct (compound : string) :
  NoDup (map symbol_of (findall (list_ascii_of_string compound))) ->
  parse_compound compound
  = map entry_of (findall (list_ascii_of_string compound)).
Proof.
  intro H. unfold parse_compound, dict_of_pairs.
  now rewrite dict_fold_distinct.
Qed.

Lemma parse_compound_distinct_witness :
  parse_compound "C3H8"
  = map entry_of (findall (list_ascii_of_string "C3H8")).
Proof.
  apply (parse_compound_distinct "C3H8").
  vm_compute. repeat constructor; simpl; intuition discriminate.
Defined.

Lemma upper_not_lower_digit (c : ascii) :
  is_upper c = true -> is_lower c = false /\ is_digit c = false.
Proof.
  unfold is_upper, is_lower, is_digit, between. intro H.
  apply andb_true_iff in H. destruct H as [H1 H2].
  apply Nat.leb_le in H1, H2.
  split; apply andb_false_iff.
  - left. apply Nat.leb_gt. lia.
  - right. apply Nat.leb_gt. lia.
Qed.

Lemma findall_boundary (s1 s2 : str) (c : ascii) :
  is_upper c = true ->
  findall (s1 ++ c :: s2)%list = (findall s1 ++ findall (c :: s2))%list.
Proof.
  intro Hu. destruct (upper_not_lower_digit c Hu) as [Hl Hd].
  remember (List.length s1) as n eqn:Hn. revert s1 Hn.
  induction n as [n IH] using lt_wf_ind. intros s1 Hn.
  destruct s1 as [|x r]; [reflexivity|].
  change ((x :: r) ++ c :: s2)%list with (x :: r ++ c :: s2)%list.
  rewrite (findall_cons x (r ++ c :: s2)%list), (findall_cons x r).
  simpl in Hn. destruct (is_upper x).
  - rewrite (span_separator is_lower r s2 c Hl). simpl fst. simpl snd.
    rewrite (span_separator is_digit _ s2 c Hd). simpl fst. simpl snd.
    rewrite <- app_comm_cons. f_equal.
    pose proof (span_length is_lower r).
    pose proof (span_length is_digit (snd (span is_lower r))).
    eapply IH; [|reflexivity]. lia.
  - eapply IH; [|reflexivity]. lia.
Qed.

Lemma dict_get_fold_from (pairs : list (str * str)) (d : dict) (k : string)
  (default : Z) :
  dict_get
    (fold_left (fun d ec => dict_set d (string_of_list_ascii (fst ec))
                              (count_of (snd ec))) pairs d) k default
  = dict_get (dict_of_pairs pairs) k (dict_get d k default).
Proof.
  unfold dict_of_pairs. revert d default.
  induction pairs as [|p pairs IH]; intros d default; simpl; [reflexivity|].
  rewrite IH. rewrite (IH [(string_of_list_ascii (fst p), count_of (snd p))]).
  f_equal. simpl.
  destruct (String.eqb (string_of_list_ascii (fst p)) k) eqn:He.
  - apply String.eqb_eq in He. subst k. apply dict_get_set.
  - apply String.eqb_neq in He. now apply dict_get_set_other.
Qed.

(** X7. A formula followed by a formula that begins with an upper-case
    letter is read piece by piece: a symbol has in the whole the count it
    has in the second formula and, when it is not a key there, the count it
    has in the first. *)
Theorem parse_compound_concat (first second : string) (c : ascii)
  (rest : str) (symbol : string) (default : Z) :
  list_ascii_of_string second = c :: rest ->
  is_upper c = true ->
  dict_get (parse_compound (first ++ second)) symbol default
  = dict_get (parse_compound second) symbol
      (dict_get (parse_compound first) symbol default).
Proof.
  intros Hs Hu. unfold parse_compound at 1.
  rewrite list_ascii_of_string_app, Hs, findall_boundary by exact Hu.
  unfold dict_of_pairs at 1. rewrite fold_left_app.
  rewrite dict_get_fold_from, <- Hs. reflexivity.
Qed.

Lemma parse_compound_concat_witness :
  dict_get (parse_compound ("CH3" ++ "COOH")) "H" 0%Z
  = dict_get (parse_compound "COOH") "H" (dict_get (parse_compound "CH3") "H" 0%Z).
Proof.
  apply (parse_compound_concat "CH3" "COOH" "C"%char
           (list_ascii_of_string "OOH")); reflexivity.
Defined.

End Formula.

(** ** What [simplify_coefficients] returns and when it raises *)

Section Simplify.

Lemma vec_zero_or_not (v : vec) :
  (forall c, In c v -> c = 0%Qc) \/ (exists c, In c v /\ c <> 0%Qc).
Proof.
  induction v as [|x v IH]; [left; intros c []|].
  destruct (Qc_eq_dec x 0%Qc) as [Hx|Hx].
  - destruct IH as [IH|[c [Hin Hc]]].
    + left. intros c [<-|Hin]; auto.
    + right. exists c. split; [now right | assumption].
  - right. exists x. split; [now left | assumption].
Qed.

Lemma divisor_all_zero (l : list Z) :
  (forall x, In x l -> x = 0) -> divisor l = 0.
Proof.
  intro H. apply Z.abs_0_iff. rewrite divisor_abs.
  induction l as [|x l IH]; simpl; [reflexivity|].
  rewrite (H x) by now left. rewrite IH by (intros; apply H; now right).
  reflexivity.
Qed.

Lemma simplify_coefficients_zero (v : vec) :
  v <> [] -> (forall c, In c v -> c = 0%Qc) ->
  simplify_coefficients v = Raise ZeroDivisionError.
Proof.
  intros Hne Hz. unfold simplify_coefficients. fold (scale_factor v).
  rewrite scaled_coeffs_eq.
  assert (Hd : divisor (map (scaled (scale_factor v)) v) = 0).
  { apply divisor_all_zero. intros x Hin. apply in_map_iff in Hin.
    destruct Hin as [c [<- Hin]]. rewrite (Hz c Hin). reflexivity. }
  destruct v as [|c v]; [congruence|]. simpl map in *.
  unfold reduce_gcd. cbn [bind]. simpl divisor in Hd. rewrite Hd.
  reflexivity.
Qed.

Lemma simplify_coefficients_inv (v : vec) (l : list Z) :
  simplify_coefficients v = Ok l ->
  (exists c, In c v /\ c <> 0%Qc) /\ l = simplified v.
Proof.
  intro H. destruct (vec_zero_or_not v) as [Hz|Hnz].
  - destruct v as [|c v]; [discriminate H|].
    rewrite simplify_coefficients_zero in H by (auto; discriminate).
    discriminate H.
  - split; [assumption|]. rewrite simplify_coefficients_ok in H by assumption.
    now injection H.
Qed.

(** X8. [simplify_coefficients] raises [TypeError] exactly on the empty
    vector, and [ZeroDivisionError] exactly on a non-empty vector whose
    entries are all zero; it raises nothing else, so that it returns on
    every other vector. *)
Theorem simplify_coefficients_errors (coefficients : vec) :
  (simplify_coefficients coefficients = Raise TypeError
   <-> coefficients = [])
  /\ (simplify_coefficients coefficients = Raise ZeroDivisionError
      <-> coefficients <> []
          /\ forall c, In c coefficients -> c = 0%Qc)
  /\ simplify_coefficients coefficients <> Raise ValueError.
Proof.
  destruct coefficients as [|x v].
  - split; [|split]; try split; try reflexivity; try discriminate.
    intros [H _]. congruence.
  - destruct (vec_zero_or_not (x :: v)) as [Hz|Hnz].
    + rewrite simplify_coefficients_zero by (auto; discriminate).
      split; [|split]; try split; try discriminate; auto.
      split; [discriminate | assumption].
    + rewrite simplify_coefficients_ok by assumption.
      split; [|split]; try split; try discriminate.
      intros [_ Hz]. destruct Hnz as [c [Hin Hc]]. now elim Hc; apply Hz.
Qed.

Lemma nth_simplified (v : vec) (i : nat) :
  (Qc_of_Z (nth i (simplified v) 0%Z)
   * Qc_of_Z (divisor (map (scaled (scale_factor v)) v)))%Qc
  = (entry v i * Qc_of_Z (scale_factor v))%Qc.
Proof.
  rewrite simplified_map.
  set (L := scale_factor v). set (d := divisor (map (scaled L) v)).
  destruct (Nat.lt_ge_cases i (List.length v)) as [Hi|Hi].
  - rewrite (nth_indep _ 0 (scaled L 0%Qc / d)) by (now rewrite length_map).
    rewrite (map_nth (fun c => scaled L c / d)). fold (entry v i).
    apply (simplified_ratio v). apply nth_In, Hi.
  - rewrite nth_overflow by (now rewrite length_map).
    unfold entry. rewrite (nth_overflow v) by assumption.
    change (Qc_of_Z 0) with 0%Qc. ring.
Qed.

Lemma Qc_of_Z_nonzero (z : Z) : z <> 0 -> Qc_of_Z z <> 0%Qc.
Proof. intros Hz H. apply Hz. now apply Qc_of_Z_inj. Qed.

Lemma simplified_cross (v : vec) (i j : nat) :
  (Qc_of_Z (nth i (simplified v) 0%Z) * entry v j)%Qc
  = (Qc_of_Z (nth j (simplified v) 0%Z) * entry v i)%Qc.
Proof.
  destruct (scale_factor_pos v) as [HL _].
  pose proof (nth_simplified v i) as Hi. pose proof (nth_simplified v j) as Hj.
  set (a := Qc_of_Z (nth i (simplified v) 0%Z)) in *.
  set (b := Qc_of_Z (nth j (simplified v) 0%Z)) in *.
  set (d := Qc_of_Z (divisor _)) in *.
  set (L := Qc_of_Z (scale_factor v)) in *.
  assert (HLq : L <> 0%Qc) by (apply Qc_of_Z_nonzero; lia).
  assert (H : ((a * entry v j - b * entry v i) * L = 0)%Qc).
  { transitivity (a * (entry v j * L) - b * (entry v i * L))%Qc; [ring|].
    rewrite <- Hi, <- Hj. ring. }
  destruct (Qcmult_integral _ _ H) as [H0|H0]; [|contradiction].
  transitivity ((a * entry v j - b * entry v i) + b * entry v i)%Qc; [ring|].
  rewrite H0. ring.
Qed.

(** X9. The integers that [simplify_coefficients] returns are as many as
    the entries and keep their ratios: for any two positions, each integer
    times the other entry gives the same product. *)
Theorem simplify_coefficients_ratios (coefficients : vec) (l : list Z) :
  simplify_coefficients coefficients = Ok l ->
  List.length l = List.length coefficients
  /\ forall i j,
      (Qc_of_Z (nth i l 0%Z) * entry coefficients j)%Qc
      = (Qc_of_Z (nth j l 0%Z) * entry coefficients i)%Qc.
Proof.
  intro H. destruct (simplify_coefficients_inv _ _ H) as [_ ->].
  split; [apply length_simplified | apply simplified_cross].
Qed.

Lemma simplify_coefficients_ratios_witness :
  (Qc_of_Z (nth 0 [2; 3] 0%Z) * entry [Q2Qc (3 # 2); Q2Qc (9 # 4)] 1)%Qc
  = (Qc_of_Z (nth 1 [2; 3] 0%Z) * entry [Q2Qc (3 # 2); Q2Qc (9 # 4)] 0)%Qc.
Proof.
  apply (simplify_coefficients_ratios [Q2Qc (3 # 2); Q2Qc (9 # 4)] [2; 3]).
  vm_compute. reflexivity.
Defined.

Lemma simplified_nonzero_entry (v : vec) (k : nat) :
  entry v k <> 0%Qc -> nth k (simplified v) 0 <> 0.
Proof.
  intros Hk H0. destruct (scale_factor_pos v) as [HL _].
  pose proof (nth_simplified v k) as Hn. rewrite H0 in Hn.
  change (Qc_of_Z 0) with 0%Qc in Hn. rewrite Qcmult_0_l in Hn.
  symmetry in Hn. destruct (Qcmult_integral _ _ Hn) as [H|H];
    [contradiction|].
  revert H. apply Qc_of_Z_nonzero. lia.
Qed.

Lemma gcd_list_simplified (v : vec) :
  (exists c, In c v /\ c <> 0%Qc) -> gcd_list (simplified v) = 1.
Proof.
  intro Hnz. unfold simplified.
  apply gcd_list_quotients, divisor_nonzero, scaled_nonzero, Hnz.
Qed.

Lemma in_entry (v : vec) (c : Qc) :
  In c v -> exists k, (k < List.length v)%nat /\ entry v k = c.
Proof. intro H. apply (In_nth v c 0%Qc) in H. exact H. Qed.

(** X10. The integers returned are the smallest with these ratios: every
    list of integers with the same ratios to the entries is the returned
    list times one integer. *)
Theorem simplify_coefficients_minimal (coefficients : vec) (l m : list Z) :
  simplify_coefficients coefficients = Ok l ->
  List.length m = List.length coefficients ->
  (forall i j,
      (Qc_of_Z (nth i m 0%Z) * entry coefficients j)%Qc
      = (Qc_of_Z (nth j m 0%Z) * entry coefficients i)%Qc) ->
  exists t, m = map (Z.mul t) l.
Proof.
  intros H Hlen Hm. destruct (simplify_coefficients_inv _ _ H) as [Hnz ->].
  set (v := coefficients) in *. set (l := simplified v).
  destruct Hnz as [c [Hin Hc]].
  destruct (in_entry v c Hin) as [k [Hk Hvk]]. rewrite <- Hvk in Hc.
  assert (Hlk : nth k l 0 <> 0) by (now apply simplified_nonzero_entry).
  assert (Hcross : forall i, nth i l 0 * nth k m 0 = nth k l 0 * nth i m 0).
  { intro i. apply Qc_of_Z_inj. rewrite !Qc_of_Z_mul.
    pose proof (simplified_cross v i k) as H1. fold l in H1.
    pose proof (Hm i k) as H2.
    set (li := Qc_of_Z (nth i l 0%Z)) in *. set (lk := Qc_of_Z (nth k l 0%Z)) in *.
    set (mi := Qc_of_Z (nth i m 0%Z)) in *. set (mk := Qc_of_Z (nth k m 0%Z)) in *.
    assert (Hz : ((li * mk - lk * mi) * entry v k = 0)%Qc).
    { transitivity (mk * (li * entry v k) - lk * (mi * entry v k))%Qc;
        [ring|].
      rewrite H1, H2. ring. }
    destruct (Qcmult_integral _ _ Hz) as [H0|H0]; [|contradiction].
    transitivity ((li * mk - lk * mi) + lk * mi)%Qc; [ring|].
    rewrite H0. ring. }
  assert (Hdiv : (nth k l 0 | nth k m 0)).
  { apply Z.divide_abs_r.
    replace (Z.abs (nth k m 0)) with (gcd_list (map (Z.mul (nth k m 0)) l)).
    - apply gcd_list_greatest. intros x Hx. apply in_map_iff in Hx.
      destruct Hx as [y [<- Hy]].
      apply (In_nth l y 0) in Hy. destruct Hy as [i [_ <-]].
      exists (nth i m 0). rewrite Z.mul_comm, Hcross. ring.
    - rewrite gcd_list_mul. unfold l.
      rewrite gcd_list_simplified by (exists (entry v k); split;
        [apply nth_In, Hk | exact Hc]).
      ring. }
  destruct Hdiv as [t Ht]. exists t.
  apply (nth_ext _ _ 0 (t * 0)).
  - rewrite length_map. unfold l. now rewrite length_simplified.
  - intros i _. rewrite (map_nth (Z.mul t)).
    pose proof (Hcross i) as Hi. rewrite Ht in Hi. nia.
Qed.

Lemma simplify_coefficients_minimal_witness :
  exists t, [6; 9] = map (Z.mul t) [2; 3].
Proof.
  apply (simplify_coefficients_minimal [Q2Qc (3 # 2); Q2Qc (9 # 4)]).
  - vm_compute. reflexivity.
  - reflexivity.
  - intros [|[|[|i]]] [|[|[|j]]]; apply Qc_is_canon; vm_compute; reflexivity.
Defined.

Lemma denominator_Qc_of_Z (z : Z) : denominator (Qc_of_Z z) = 1.
Proof.
  unfold denominator, Qc_of_Z, Q2Qc. cbn [this].
  rewrite Qred_identity by (simpl; apply Z.gcd_1_r). reflexivity.
Qed.

Lemma Qnum_Qc_of_Z (z : Z) : Qnum (Qc_of_Z z) = z.
Proof.
  unfold Qc_of_Z, Q2Qc. cbn [this].
  rewrite Qred_identity by (simpl; apply Z.gcd_1_r). reflexivity.
Qed.

Lemma scale_factor_integers (l : list Z) :
  scale_factor (map Qc_of_Z l) = 1.
Proof.
  unfold scale_factor. rewrite map_map.
  induction l as [|z l IH]; cbn [map fold_left]; [reflexivity|].
  rewrite denominator_Qc_of_Z. exact IH.
Qed.

Lemma scaled_integers (l : list Z) :
  map (scaled 1) (map Qc_of_Z l) = l.
Proof.
  rewrite map_map. rewrite <- (map_id l) at 2. apply map_ext.
  intro z. unfold scaled. rewrite Qnum_Qc_of_Z, denominator_Qc_of_Z.
  change (1 / 1) with 1. ring.
Qed.

Lemma divisor_simplified (v : vec) :
  (exists c, In c v /\ c <> 0%Qc) -> divisor (simplified v) = 1.
Proof.
  intro Hnz. pose proof (gcd_list_simplified v Hnz) as Hg.
  destruct (Nat.lt_ge_cases (List.length v) 2) as [Hlen|Hlen].
  - destruct v as [|c [|c' v]]; simpl in Hlen; try lia.
    + destruct Hnz as [c [[] _]].
    + pose proof (divisor_nonzero _ (scaled_nonzero [c] Hnz)) as Hd.
      unfold simplified. simpl map in *. simpl divisor in *.
      now apply Z.div_same.
  - rewrite divisor_nonneg by (now rewrite length_simplified). exact Hg.
Qed.

(** X11. [simplify_coefficients] leaves its own results as they are:
    applied to the integers it has returned, it returns them again. *)
Theorem simplify_coefficients_idempotent (coefficients : vec) (l : list Z) :
  simplify_coefficients coefficients = Ok l ->
  simplify_coefficients (map Qc_of_Z l) = Ok l.
Proof.
  intro H. destruct (simplify_coefficients_inv _ _ H) as [Hnz ->].
  set (l := simplified coefficients).
  assert (Hl : exists c, In c (map Qc_of_Z l) /\ c <> 0%Qc).
  { destruct Hnz as [c [Hin Hc]].
    destruct (in_entry _ c Hin) as [k [Hk Hvk]]. rewrite <- Hvk in Hc.
    exists (Qc_of_Z (nth k l 0%Z)). split.
    - apply in_map, nth_In. unfold l. now rewrite length_simplified.
    - apply Qc_of_Z_nonzero. now apply simplified_nonzero_entry. }
  rewrite simplify_coefficients_ok by exact Hl. f_equal.
  unfold simplified at 1. rewrite scale_factor_integers, scaled_integers.
  unfold l. rewrite divisor_simplified by exact Hnz.
  rewrite <- (map_id (simplified coefficients)) at 2. apply map_ext.
  intro z. apply Z.div_1_r.
Qed.

Lemma simplify_coefficients_idempotent_witness :
  simplify_coefficients (map Qc_of_Z [2; 3]) = Ok [2; 3].
Proof.
  apply (simplify_coefficients_idempotent [Q2Qc (3 # 2); Q2Qc (9 # 4)]).
  vm_compute. reflexivity.
Defined.

End Simplify.

(** ** What [balance_reaction] answers *)

Section Answers.

Local Open Scope string_scope.

Lemma balance_never_raises_aux (reaction : string) :
  exists o, balance reaction = Ok o.
Proof.
  pose proof (balance_cases reaction) as Hc.
  destruct (parse_reaction reaction) as [[rs ps]|]; [|eauto].
  cbv zeta in Hc. destruct (nullspace _) as [|v basis]; eauto.
Qed.

(** The vector behind a balanced reaction. *)
Lemma balanced_vector (reaction : string) (rs ps : list string)
  (rc pc : list Z) :
  balance reaction = Ok (Balanced rs ps rc pc) ->
  exists v,
    In v (nullspace (Matrix_of (build_matrix rs ps (get_elements rs ps))))
    /\ (rc ++ pc)%list = simplified v
    /\ List.length v = (List.length rs + List.length ps)%nat
    /\ (2 <= List.length v)%nat.
Proof.
  intro H.
  destruct (balance_balanced _ _ _ _ _ H) as [Hp [v [basis [Hn [-> ->]]]]].
  exists v. set (els := get_elements rs ps) in *.
  set (M := Matrix_of (build_matrix rs ps els)) in *.
  assert (Hv : In v (nullspace M)) by (rewrite Hn; now left).
  split; [exact Hv|]. split; [apply firstn_skipn|].
  destruct (nullspace_free_entry M v Hv) as [Hlen [j [Hj _]]].
  assert (Hels : els <> []).
  { intro He. unfold M in Hj. rewrite He in Hj. simpl in Hj. lia. }
  unfold M in Hlen. rewrite (cols_build_matrix _ _ _ Hels) in Hlen.
  split; [exact Hlen|].
  destruct (parse_reaction_some _ _ _ Hp) as [lhs [rhs [_ [Hr Hq]]]].
  pose proof (compounds_of_nonempty lhs). pose proof (compounds_of_nonempty rhs).
  destruct rs; [congruence|]. destruct ps; [congruence|].
  simpl in Hlen. lia.
Qed.

(** X13. The coefficients of a balanced reaction, taken together, have no
    common divisor but 1, and at least one of them is positive. *)
Theorem balance_coprime_positive (reaction : string)
  (reactants products : list string) (reactant_coeffs product_coeffs : list Z) :
  balance reaction
  = Ok (Balanced reactants products reactant_coeffs product_coeffs) ->
  gcd_list (reactant_coeffs ++ product_coeffs)%list = 1%Z
  /\ exists c, In c (reactant_coeffs ++ product_coeffs)%list /\ (1 <= c)%Z.
Proof.
  intro H. destruct (balanced_vector _ _ _ _ _ H) as [v [Hv [-> [Hlen H2]]]].
  set (M := Matrix_of _) in Hv.
  pose proof (nullspace_nonzero M v Hv) as Hnz.
  split; [now apply gcd_list_simplified|].
  destruct (nullspace_free_entry M v Hv) as [Hl [j [Hj H1]]].
  exists (nth j (simplified v) 0%Z). split.
  - apply nth_In. rewrite length_simplified. lia.
  - pose proof (simplified_sgn v j H2 Hnz) as Hs. rewrite H1 in Hs.
    change (Z.sgn (Qnum 1%Qc)) with 1%Z in Hs.
    apply Z.sgn_pos_iff in Hs. lia.
Qed.

Lemma balance_coprime_positive_witness :
  gcd_list ([1; 5] ++ [3; 4])%list = 1%Z
  /\ exists c, In c ([1; 5] ++ [3; 4])%list /\ (1 <= c)%Z.
Proof.
  apply (balance_coprime_positive "C3H8 + O2 -> CO2 + H2O"
           ["C3H8"; "O2"] ["CO2"; "H2O"]).
  vm_compute. reflexivity.
Defined.

End Answers.

(** ** When the answer is that the reaction cannot be balanced *)

Section Completeness.

Local Open Scope Qc_scope.

Lemma rref_step_complete (n : nat) (rows0 : list vec) (c : nat)
  (st : rref_state) (v : vec) :
  rref_inv n rows0 c st ->
  (forall p r, In (p, r) (fst st) -> dot r v = 0) ->
  (forall r, In r (snd st) -> dot r v = 0) ->
  (forall p r, In (p, r) (fst (rref_step st c)) -> dot r v = 0)
  /\ (forall r, In r (snd (rref_step st c)) -> dot r v = 0).
Proof.
  intros [Hld Hlr _ _ _ _ _] Hdone Hrest. destruct st as [done rest].
  unfold rref_step. simpl in *.
  destruct (find_pivot c rest) as [[[before row] after]|] eqn:Hf;
    [|split; assumption].
  destruct (find_pivot_some _ _ _ _ _ Hf) as [Hsplit Hx].
  set (piv := row_scale (/ entry row c) row).
  assert (Hrow : In row rest) by (rewrite Hsplit, in_app_iff; simpl; auto).
  assert (Hothers : forall r, In r (swap_rest before after) -> In r rest).
  { intros r Hr. apply in_swap_rest in Hr. rewrite Hsplit.
    rewrite in_app_iff in *. simpl. tauto. }
  assert (Hlp : List.length piv = n).
  { unfold piv. rewrite length_row_scale. auto. }
  assert (Hpv : dot piv v = 0).
  { unfold piv. rewrite dot_row_scale, (Hrest row Hrow). ring. }
  simpl. split.
  - intros p r Hin. apply in_eliminated in Hin.
    destruct Hin as [[r0 [Hin ->]]|[-> ->]]; [|exact Hpv].
    unfold eliminate. rewrite dot_row_sub by (rewrite Hlp; eauto).
    rewrite Hpv, (Hdone p r0 Hin). ring.
  - intros r Hin. apply in_map_iff in Hin. destruct Hin as [r0 [<- Hin]].
    unfold eliminate. rewrite dot_row_sub by (rewrite Hlp; auto).
    rewrite Hpv, (Hrest r0) by auto. ring.
Qed.

Lemma rref_fold_complete (n : nat) (rows0 : list vec) (v : vec)
  (len start : nat) (st : rref_state) :
  rref_inv n rows0 start st ->
  (forall p r, In (p, r) (fst st) -> dot r v = 0) ->
  (forall r, In r (snd st) -> dot r v = 0) ->
  forall p r,
    In (p, r) (fst (fold_left rref_step (seq start len) st)) -> dot r v = 0.
Proof.
  revert start st. induction len as [|len IH]; intros start st Hinv Hd Hr;
    simpl; [exact Hd|].
  destruct (rref_step_complete n rows0 start st v Hinv Hd Hr) as [Hd' Hr'].
  apply (IH (S start)); auto. now apply rref_step_inv.
Qed.

Lemma rref_run_complete (M : Matrix) (v : vec) :
  well_formed M ->
  (forall r, In r (m_rows M) -> dot r v = 0) ->
  forall p r, In (p, r) (fst (rref_run M)) -> dot r v = 0.
Proof.
  intros Hwf Hv. unfold rref_run.
  apply (rref_fold_complete (m_cols M) (m_rows M) v (m_cols M) 0%nat).
  - now apply rref_inv_init.
  - intros p r [].
  - exact Hv.
Qed.

Lemma dot_unit_row (r v : vec) (p : nat) :
  List.length r = List.length v ->
  (p < List.length r)%nat ->
  (forall k, (k < List.length r)%nat -> entry r k = delta k p) ->
  dot r v = entry v p.
Proof.
  revert v p. induction r as [|x r IH]; intros [|y v] p Hlen Hp Hr;
    simpl in *; try lia; try discriminate.
  destruct p as [|p].
  - assert (Hx : x = 1) by (apply (Hr 0%nat); lia).
    rewrite (dot_zero_row r v).
    + rewrite Hx. unfold entry. simpl. ring.
    + intros k Hk. apply (Hr (S k)). lia.
  - assert (Hx : x = 0) by (apply (Hr 0%nat); lia).
    rewrite (IH v p).
    + rewrite Hx. unfold entry. simpl. ring.
    + congruence.
    + lia.
    + intros k Hk. apply (Hr (S k)). lia.
Qed.

Lemma full_rank_pivots (M : Matrix) (k : nat) :
  nullspace M = [] -> (k < m_cols M)%nat -> In k (snd (rref M)).
Proof.
  unfold nullspace. destruct (rref M) as [reduced pivots]. simpl.
  intros H Hk. apply map_eq_nil in H.
  apply free_column_test. apply (proj1 (filter_nil_iff _ _ _) H).
  apply in_seq. lia.
Qed.

(** With a pivot in every column, only the zero vector is annihilated by
    every row. *)
Lemma full_rank_trivial (M : Matrix) (v : vec) (k : nat) :
  well_formed M -> nullspace M = [] ->
  List.length v = m_cols M ->
  (forall r, In r (m_rows M) -> dot r v = 0) ->
  (k < m_cols M)%nat -> entry v k = 0.
Proof.
  intros Hwf Hn Hlen Hv Hk.
  destruct (rref_run_inv M Hwf) as [Hld _ Hlt _ Hun _ _].
  pose proof (full_rank_pivots M k Hn Hk) as Hp.
  unfold rref in Hp. simpl in Hp. apply in_map_iff in Hp.
  destruct Hp as [[p r] [Heq Hin]]. simpl in Heq. subst p.
  rewrite <- (dot_unit_row r v k).
  - now apply (rref_run_complete M v Hwf Hv k).
  - rewrite (Hld _ _ Hin). now symmetry.
  - now rewrite (Hld _ _ Hin).
  - intros j Hj. rewrite (Hld _ _ Hin) in Hj.
    pose proof (full_rank_pivots M j Hn Hj) as Hpj.
    unfold rref in Hpj. simpl in Hpj. apply in_map_iff in Hpj.
    destruct Hpj as [[pj rj] [Heqj Hinj]]. simpl in Heqj. subst pj.
    exact (Hun _ _ _ _ Hinj Hin).
Qed.

End Completeness.

Section Unbalanceable.

Local Open Scope string_scope.

Lemma firstn_exact (A : Type) (l1 l2 : list A) :
  firstn (List.length l1) (l1 ++ l2)%list = l1.
Proof. induction l1 as [|a l1 IH]; simpl; [reflexivity | now rewrite IH]. Qed.

Lemma skipn_exact (A : Type) (l1 l2 : list A) :
  skipn (List.length l1) (l1 ++ l2)%list = l2.
Proof. induction l1 as [|a l1 IH]; simpl; [reflexivity | exact IH]. Qed.

(** When [balance] answers that a reaction with at least one element cannot
    be balanced, the only coefficients, one for each compound, that
    annihilate the rows of the matrix are all zero. *)
Lemma cannot_balance_parsed (reaction : string)
  (reactants products : list string) (reactant_coeffs product_coeffs : list Z) :
  parse_reaction reaction = Some (reactants, products) ->
  balance reaction = Ok CannotBalance ->
  get_elements reactants products <> [] ->
  List.length reactant_coeffs = List.length reactants ->
  List.length product_coeffs = List.length products ->
  (forall element,
      In element (get_elements reactants products) ->
      atoms element reactant_coeffs reactants
      = atoms element product_coeffs products) ->
  forall c, In c (reactant_coeffs ++ product_coeffs)%list -> c = 0%Z.
Proof.
  intros Hp Hb Hels Hlr Hlp Hcons c Hc.
  set (els := get_elements reactants products) in *.
  set (M := Matrix_of (build_matrix reactants products els)).
  assert (Hn : nullspace M = []).
  { pose proof (balance_cases reaction) as Hcase. rewrite Hp in Hcase.
    cbv zeta in Hcase. fold els in Hcase. fold M in Hcase.
    destruct (nullspace M) as [|v basis]; [reflexivity|].
    rewrite Hcase in Hb. discriminate Hb. }
  set (l := (reactant_coeffs ++ product_coeffs)%list) in *.
  assert (Hcols : m_cols M
                  = (List.length reactants + List.length products)%nat)
    by (apply cols_build_matrix, Hels).
  assert (Hlen : List.length (map Qc_of_Z l) = m_cols M).
  { rewrite length_map, Hcols. unfold l. rewrite length_app. lia. }
  assert (Hrows : forall r, In r (m_rows M) -> dot r (map Qc_of_Z l) = 0%Qc).
  { intros r Hr. unfold M, Matrix_of, build_matrix in Hr. simpl in Hr.
    apply in_map_iff in Hr. destruct Hr as [row [<- Hr]].
    apply in_map_iff in Hr. destruct Hr as [e [<- He]].
    rewrite dot_Qc_of_Z, dotZ_build_row. unfold l.
    rewrite <- Hlr, firstn_exact, skipn_exact, (Hcons e He), Z.sub_diag.
    reflexivity. }
  apply (In_nth l c 0%Z) in Hc. destruct Hc as [k [Hk <-]].
  apply Qc_of_Z_inj. change (Qc_of_Z 0) with 0%Qc.
  rewrite <- (full_rank_trivial M (map Qc_of_Z l) k
                (well_formed_build_matrix _ _ _) Hn Hlen Hrows)
    by (rewrite <- Hlen, length_map; exact Hk).
  unfold entry. change 0%Qc with (Qc_of_Z 0). symmetry. apply map_nth.
Qed.

End Unbalanceable.

(** ** Reactions that do not parse, and the tokens of those that do *)

Section Tokens.

Local Open Scope string_scope.

(** X15. A string without the arrow does not parse, and [balance_reaction]
    answers it with the message for a wrong format. *)
Theorem no_arrow_invalid (reaction : string) :
  contains arrow (list_ascii_of_string reaction) = false ->
  parse_reaction reaction = None
  /\ balance_reaction reaction
     = Ok "Invalid reaction format. Use '->' to separate reactants and products.".
Proof.
  intro H.
  assert (Hp : parse_reaction reaction = None).
  { unfold parse_reaction, split.
    now rewrite split_from_absent by auto. }
  split; [exact Hp|].
  unfold balance_reaction, balance. now rewrite Hp.
Qed.

Lemma no_arrow_invalid_witness :
  parse_reaction "H2 + O2 H2O" = None
  /\ balance_reaction "H2 + O2 H2O"
     = Ok "Invalid reaction format. Use '->' to separate reactants and products.".
Proof. apply (no_arrow_invalid "H2 + O2 H2O"). reflexivity. Defined.

(** Up to the first arrow of a string. *)
Lemma split_from_first (l r cur : str) (fuel : nat) :
  (List.length (l ++ arrow ++ r)%list <= fuel)%nat ->
  contains arrow l = false ->
  exists fuel',
    (List.length r <= fuel')%nat
    /\ split_from fuel arrow (l ++ arrow ++ r)%list cur
       = (rev cur ++ l)%list :: split_from fuel' arrow r [].
Proof.
  revert cur fuel. induction l as [|c l IH]; intros cur fuel Hf Hl.
  - change ([] ++ arrow ++ r)%list with ("-"%char :: ">"%char :: r) in *.
    destruct fuel as [|f]; [simpl in Hf; lia|].
    exists f. split; [simpl in Hf; lia|].
    rewrite split_from_step.
    change (is_prefix arrow ("-"%char :: ">"%char :: r)) with true.
    change (skipn (List.length arrow) ("-"%char :: ">"%char :: r)) with r.
    now rewrite app_nil_r.
  - destruct (contains_cons _ _ _ Hl) as [Hp Hl'].
    destruct fuel as [|f]; [simpl in Hf; lia|].
    change ((c :: l) ++ arrow ++ r)%list with (c :: l ++ arrow ++ r)%list in *.
    cbn [List.length] in Hf.
    destruct (IH (c :: cur) f) as [f' [Hf' Heq]]; [lia | assumption|].
    exists f'. split; [assumption|].
    rewrite split_from_step, (arrow_not_across c l r Hp), Heq.
    simpl. now rewrite <- app_assoc.
Qed.

(** A string that holds an arrow has at least two pieces. *)
Lemma split_from_present (r cur : str) (fuel : nat) :
  (List.length r <= fuel)%nat ->
  contains arrow r = true ->
  exists a b pieces, split_from fuel arrow r cur = a :: b :: pieces.
Proof.
  revert cur fuel. induction r as [|c r IH]; intros cur fuel Hf Hr.
  - discriminate Hr.
  - destruct fuel as [|f]; [simpl in Hf; lia|].
    rewrite split_from_step. cbn [contains] in Hr.
    destruct (is_prefix arrow (c :: r)) eqn:Hp.
    + destruct (split_from f arrow (skipn (List.length arrow) (c :: r)) [])
        as [|b pieces] eqn:Hs.
      * now apply split_from_nonempty in Hs.
      * now exists (rev cur), b, pieces.
    + simpl in Hr. apply (IH (c :: cur) f); [simpl in Hf; lia | exact Hr].
Qed.

(** X16. A string with an arrow after its first arrow does not parse. *)
Theorem second_arrow_invalid (lhs rest : string) :
  contains arrow (list_ascii_of_string lhs) = false ->
  contains arrow (list_ascii_of_string rest) = true ->
  parse_reaction (lhs ++ "->" ++ rest) = None.
Proof.
  intros Hl Hr. unfold parse_reaction, split.
  rewrite !list_ascii_of_string_app.
  change (list_ascii_of_string "->") with arrow.
  destruct (split_from_first (list_ascii_of_string lhs)
              (list_ascii_of_string rest) []
              (List.length (list_ascii_of_string lhs ++ arrow
                            ++ list_ascii_of_string rest)%list))
    as [f' [Hf' ->]]; [lia | assumption|].
  destruct (split_from_present (list_ascii_of_string rest) [] f' Hf' Hr)
    as [a [b [pieces ->]]].
  reflexivity.
Qed.

Lemma second_arrow_invalid_witness :
  parse_reaction ("H2 " ++ "->" ++ " O2 -> H2O") = None.
Proof. apply (second_arrow_invalid "H2 " " O2 -> H2O"); reflexivity. Defined.

Lemma lstrip_head (s : str) (c : ascii) (r : str) :
  lstrip s = c :: r -> is_space c = false.
Proof.
  induction s as [|x s IH]; simpl; [discriminate|].
  destruct (is_space x) eqn:Hx; [exact IH|].
  intro H. injection H as <- _. exact Hx.
Qed.

Lemma lstrip_suffix (s : str) : exists w, s = (w ++ lstrip s)%list.
Proof.
  induction s as [|x s [w IH]]; simpl; [now exists []|].
  destruct (is_space x); [|now exists []].
  exists (x :: w). simpl. now rewrite <- IH.
Qed.

Lemma strip_first (s : str) (c : ascii) (r : str) :
  strip s = c :: r -> is_space c = false.
Proof.
  unfold strip. intro H.
  destruct (lstrip_suffix (rev (lstrip s))) as [w Hw].
  apply (f_equal (@rev ascii)) in Hw.
  rewrite rev_involutive, rev_app_distr, H in Hw.
  simpl in Hw. now apply lstrip_head in Hw.
Qed.

Lemma strip_last (s : str) (c : ascii) (r : str) :
  strip s = (r ++ [c])%list -> is_space c = false.
Proof.
  unfold strip. intro H. apply (f_equal (@rev ascii)) in H.
  rewrite rev_involutive, rev_app_distr in H. simpl in H.
  now apply lstrip_head in H.
Qed.

Lemma lstrip_incl (s : str) (x : ascii) : In x (lstrip s) -> In x s.
Proof.
  destruct (lstrip_suffix s) as [w Hw]. intro H. rewrite Hw.
  apply in_or_app. now right.
Qed.

Lemma strip_incl (s : str) (x : ascii) : In x (strip s) -> In x s.
Proof.
  unfold strip. intro H. apply in_rev in H. apply lstrip_incl in H.
  apply in_rev in H. now apply lstrip_incl in H.
Qed.

Lemma split_from_plus_free (fuel : nat) (s cur piece : str) :
  ~ In "+"%char cur ->
  In piece (split_from fuel plus s cur) -> ~ In "+"%char piece.
Proof.
  change plus with ["+"%char].
  revert s cur. induction fuel as [|f IH]; intros s cur Hcur Hin.
  - destruct Hin as [<-|[]]. now rewrite <- in_rev.
  - destruct s as [|c r].
    + destruct Hin as [<-|[]]. now rewrite <- in_rev.
    + rewrite split_from_step in Hin. cbn [is_prefix] in Hin.
      rewrite andb_true_r in Hin.
      destruct (Ascii.eqb "+" c) eqn:Hc.
      * destruct Hin as [<-|Hin]; [now rewrite <- in_rev|].
        apply (IH _ [] (fun H => H) Hin).
      * apply (IH r (c :: cur)); [|exact Hin].
        intros [->|H]; [|contradiction].
        now rewrite Ascii.eqb_refl in Hc.
Qed.

(** X17. The compounds that [parse_reaction] returns hold no [+], and
    neither begin nor end with white space. *)
Theorem parse_reaction_tokens (reaction : string)
  (reactants products : list string) (compound : string) :
  parse_reaction reaction = Some (reactants, products) ->
  In compound (reactants ++ products)%list ->
  ~ In "+"%char (list_ascii_of_string compound)
  /\ (forall c r, list_ascii_of_string compound = c :: r ->
                  is_space c = false)
  /\ (forall c r, list_ascii_of_string compound = (r ++ [c])%list ->
                  is_space c = false).
Proof.
  intros Hp Hin.
  destruct (parse_reaction_some _ _ _ Hp) as [lhs [rhs [_ [-> ->]]]].
  assert (Hside : exists side piece,
             In piece (split plus side)
             /\ compound = string_of_list_ascii (strip piece)).
  { apply in_app_or in Hin. unfold compounds_of in Hin.
    destruct Hin as [Hin|Hin]; apply in_map_iff in Hin;
      destruct Hin as [piece [<- Hin]]; eauto. }
  destruct Hside as [side [piece [Hpiece ->]]].
  rewrite list_ascii_of_string_of_list_ascii.
  split; [|split].
  - intro H. apply strip_incl in H. revert H.
    apply (split_from_plus_free _ _ [] _ (fun H => H) Hpiece).
  - apply strip_first.
  - apply strip_last.
Qed.

Lemma parse_reaction_tokens_witness :
  ~ In "+"%char (list_ascii_of_string "O2")
  /\ (forall c r, list_ascii_of_string "O2" = c :: r -> is_space c = false)
  /\ (forall c r, list_ascii_of_string "O2" = (r ++ [c])%list ->
                  is_space c = false).
Proof.
  apply (parse_reaction_tokens " H2 +  O2 -> H2O " ["H2"; "O2"] ["H2O"]).
  - vm_compute. reflexivity.
  - simpl. auto.
Defined.

End Tokens.

(** * The code under the limit on conversions *)

(** ** Where the limit shows *)

Section Limits.

Local Open Scope string_scope.

Lemma bind_ok (A B : Type) (a : A) (k : A -> result B) :
  bind (Ok a) k = k a.
Proof. reflexivity. Qed.

Lemma bind_raise (A B : Type) (e : py_exn) (k : A -> result B) :
  bind (Raise e) k = Raise e.
Proof. reflexivity. Qed.

Lemma count_of_limit (count : str) :
  CPython.count_of count
  = if count_within count then Ok (count_of count) else Raise ValueError.
Proof.
  unfold CPython.count_of, CPython.int_of_str, count_within, count_of.
  destruct count as [|c r]; [reflexivity|].
  rewrite Z.ltb_antisym.
  now destruct (Z.of_nat (List.length (c :: r)) <=? CPython.max_str_digits)%Z.
Qed.

Lemma dict_fold_limit (pairs : list (str * str)) (d : dict) :
  fold_result
    (fun d ec =>
       count <- CPython.count_of (snd ec) ;;
       Ok (dict_set d (string_of_list_ascii (fst ec)) count))
    pairs d
  = if forallb (fun m => count_within (snd m)) pairs
    then Ok (fold_left
               (fun d ec => dict_set d (string_of_list_ascii (fst ec))
                              (count_of (snd ec))) pairs d)
    else Raise ValueError.
Proof.
  revert d. induction pairs as [|p pairs IH]; intro d; [reflexivity|].
  cbn [fold_result forallb fold_left]. rewrite count_of_limit.
  unfold str in *.
  destruct (count_within (snd p)); cbn [andb]; cbv beta iota.
  - rewrite !bind_ok. apply IH.
  - now rewrite !bind_raise.
Qed.

Lemma dict_of_pairs_limit (pairs : list (str * str)) :
  CPython.dict_of_pairs pairs
  = if forallb (fun m => count_within (snd m)) pairs
    then Ok (dict_of_pairs pairs) else Raise ValueError.
Proof. apply dict_fold_limit. Qed.

(** [parse_compound] raises when a count is beyond the limit, and computes
    its mapping otherwise. *)
Lemma parse_compound_limit (compound : string) :
  CPython.parse_compound compound
  = if compound_within compound then Ok (parse_compound compound)
    else Raise ValueError.
Proof. apply dict_of_pairs_limit. Qed.

Lemma parse_compound_ok (compound : string) (d : dict) :
  CPython.parse_compound compound = Ok d ->
  compound_within compound = true /\ d = parse_compound compound.
Proof.
  rewrite parse_compound_limit. destruct (compound_within compound);
    [|discriminate].
  intro H. injection H as <-. now split.
Qed.

Lemma collect_limit (l : list string) (s : list string) :
  fold_result
    (fun elements compound =>
       d <- CPython.parse_compound compound ;;
       Ok (set_update elements (dict_keys d))) l s
  = if forallb compound_within l
    then Ok (fold_left
               (fun elements compound =>
                  set_update elements (dict_keys (parse_compound compound)))
               l s)
    else Raise ValueError.
Proof.
  revert s. induction l as [|c l IH]; intro s; [reflexivity|].
  cbn [fold_result forallb fold_left]. rewrite parse_compound_limit.
  destruct (compound_within c); cbn [andb]; cbv beta iota.
  - rewrite !bind_ok. apply IH.
  - now rewrite !bind_raise.
Qed.

Lemma get_elements_limit (reactants products : list string) :
  CPython.get_elements reactants products
  = if forallb compound_within (reactants ++ products)%list
    then Ok (get_elements reactants products) else Raise ValueError.
Proof.
  unfold CPython.get_elements, get_elements. rewrite collect_limit.
  now destruct (forallb compound_within (reactants ++ products)%list).
Qed.

Lemma map_result_ok (A B : Type) (f : A -> result B) (g : A -> B)
  (l : list A) :
  (forall x, In x l -> f x = Ok (g x)) -> map_result f l = Ok (map g l).
Proof.
  induction l as [|a l IH]; intro H; [reflexivity|].
  cbn [map_result map]. rewrite (H a) by now left. cbn [bind].
  rewrite IH by (intros; apply H; now right). reflexivity.
Qed.

Lemma map_result_raise (A B : Type) (f : A -> result B) (l : list A)
  (e : py_exn) :
  map_result f l = Raise e -> exists x, In x l /\ f x = Raise e.
Proof.
  induction l as [|a l IH]; [discriminate|].
  cbn [map_result]. destruct (f a) as [b|e'] eqn:Hf; cbn [bind].
  - destruct (map_result f l) as [bs|e''] eqn:Hm; cbn [bind];
      [discriminate|].
    intro H. injection H as ->. destruct (IH eq_refl) as [x [Hx Hfx]].
    exists x. split; [now right | assumption].
  - intro H. injection H as ->. exists a. split; [now left | assumption].
Qed.

Lemma build_row_limit (reactants products : list string) (element : string) :
  forallb compound_within (reactants ++ products)%list = true ->
  CPython.build_row reactants products element
  = Ok (build_row reactants products element).
Proof.
  intro H. rewrite forallb_app in H. apply andb_true_iff in H.
  destruct H as [Hr Hp]. rewrite forallb_forall in Hr, Hp.
  unfold CPython.build_row, build_row.
  rewrite (map_result_ok _ _ _
             (fun compound => dict_get (parse_compound compound) element 0)).
  - cbn [bind].
    rewrite (map_result_ok _ _ _
               (fun compound =>
                  (- dict_get (parse_compound compound) element 0)%Z)).
    + reflexivity.
    + intros x Hx. rewrite parse_compound_limit, (Hp x Hx). reflexivity.
  - intros x Hx. rewrite parse_compound_limit, (Hr x Hx). reflexivity.
Qed.

Lemma build_matrix_limit (reactants products elements : list string) :
  forallb compound_within (reactants ++ products)%list = true ->
  CPython.build_matrix reactants products elements
  = Ok (build_matrix reactants products elements).
Proof.
  intro H. unfold CPython.build_matrix, build_matrix.
  apply map_result_ok. intros e _. now apply build_row_limit.
Qed.

(** [balance] raises when a count of the reaction is beyond the limit, and
    computes otherwise what it computes without the limit. *)
Lemma balance_limit (reaction : string) :
  CPython.balance reaction
  = match parse_reaction reaction with
    | None => Ok InvalidFormat
    | Some (reactants, products) =>
        if forallb compound_within (reactants ++ products)%list
        then balance reaction
        else Raise ValueError
    end.
Proof.
  unfold CPython.balance, balance.
  destruct (parse_reaction reaction) as [[rs ps]|]; [|reflexivity].
  rewrite get_elements_limit.
  destruct (forallb compound_within (rs ++ ps)%list) eqn:Hw; cbn [bind];
    [|reflexivity].
  rewrite build_matrix_limit by exact Hw. reflexivity.
Qed.

Lemma balance_ok (reaction : string) (o : outcome) :
  CPython.balance reaction = Ok o -> balance reaction = Ok o.
Proof.
  rewrite balance_limit.
  destruct (parse_reaction reaction) as [[rs ps]|] eqn:Hp.
  - destruct (forallb compound_within (rs ++ ps)%list);
      [auto | discriminate].
  - intro H. injection H as <-. unfold balance. now rewrite Hp.
Qed.

Lemma balance_within (reaction : string) (rs ps : list string) :
  parse_reaction reaction = Some (rs, ps) ->
  (exists o, CPython.balance reaction = Ok o) ->
  forallb compound_within (rs ++ ps)%list = true.
Proof.
  intros Hp [o Ho]. rewrite balance_limit, Hp in Ho.
  destruct (forallb compound_within (rs ++ ps)%list);
    [reflexivity | discriminate].
Qed.

Lemma balance_raises_value_error (reaction : string) (e : py_exn) :
  CPython.balance reaction = Raise e -> e = ValueError.
Proof.
  rewrite balance_limit.
  destruct (parse_reaction reaction) as [[rs ps]|]; [|discriminate].
  destruct (forallb compound_within (rs ++ ps)%list).
  - destruct (balance_never_raises_aux reaction) as [o ->]. discriminate.
  - intro H. now injection H.
Qed.

Lemma str_of_int_raises (n : Z) (e : py_exn) :
  CPython.str_of_int n = Raise e -> e = ValueError.
Proof.
  unfold CPython.str_of_int.
  destruct (CPython.max_str_digits <? _)%Z; [|discriminate].
  intro H. now injection H.
Qed.

Lemma side_raises (coeffs : list Z) (compounds : list string) (e : py_exn) :
  CPython.side coeffs compounds = Raise e -> e = ValueError.
Proof.
  unfold CPython.side.
  destruct (map_result _ _) as [terms|e'] eqn:Hm; cbn [bind]; [discriminate|].
  intro H. injection H as ->. apply map_result_raise in Hm.
  destruct Hm as [[c x] [_ Hx]]. unfold CPython.term in Hx. simpl in Hx.
  destruct (CPython.str_of_int c) as [s|e'] eqn:Hs; cbn [bind] in Hx;
    [discriminate|].
  injection Hx as ->. now apply str_of_int_raises in Hs.
Qed.

Lemma render_raises (o : outcome) (e : py_exn) :
  CPython.render o = Raise e -> e = ValueError.
Proof.
  destruct o as [| |rs ps rc pc]; try discriminate. cbn [CPython.render].
  destruct (CPython.side rc rs) as [l|e'] eqn:Hl; cbn [bind].
  - destruct (CPython.side pc ps) as [r|e''] eqn:Hr; cbn [bind];
      [discriminate|].
    intro H. injection H as ->. now apply side_raises in Hr.
  - intro H. injection H as ->. now apply side_raises in Hl.
Qed.

Lemma balance_reaction_raises_value_error (reaction : string) (e : py_exn) :
  CPython.balance_reaction reaction = Raise e -> e = ValueError.
Proof.
  unfold CPython.balance_reaction.
  destruct (CPython.balance reaction) as [o|e'] eqn:Hb; cbn [bind].
  - apply render_raises.
  - intro H. injection H as ->. now apply balance_raises_value_error in Hb.
Qed.

Lemma forallb_false (A : Type) (f : A -> bool) (l : list A) :
  forallb f l = false -> exists x, In x l /\ f x = false.
Proof.
  induction l as [|a l IH]; [discriminate|]. cbn [forallb].
  destruct (f a) eqn:Ha; cbn [andb].
  - intro H. destruct (IH H) as [x [Hx Hfx]]. exists x. split; auto.
    now right.
  - intros _. exists a. split; [now left | assumption].
Qed.

Lemma compound_beyond (compound : string) :
  compound_within compound = false <->
  exists sym digs,
    In (sym, digs) (findall (list_ascii_of_string compound))
    /\ (CPython.max_str_digits < Z.of_nat (List.length digs))%Z.
Proof.
  unfold compound_within. split.
  - intro H. apply forallb_false in H. destruct H as [[sym digs] [Hin Hw]].
    exists sym, digs. split; [assumption|].
    unfold count_within in Hw. simpl in Hw. now apply Z.leb_gt in Hw.
  - intros [sym [digs [Hin Hlt]]].
    destruct (forallb _ _) eqn:Hf; [|reflexivity].
    rewrite forallb_forall in Hf. specialize (Hf _ Hin).
    unfold count_within in Hf. simpl in Hf. apply Z.leb_le in Hf. lia.
Qed.

End Limits.

(** ** The formula parser under the limit *)

Section Parser.

Local Open Scope string_scope.

Lemma parse_compound_empty (compound : string) :
  CPython.parse_compound compound = Ok []
  <-> forall c, In c (list_ascii_of_string compound) -> is_upper c = false.
Proof.
  split.
  - intros H c Hin. apply parse_compound_ok in H. destruct H as [_ H].
    symmetry in H. unfold parse_compound in H.
    apply dict_of_pairs_empty in H.
    destruct (is_upper c) eqn:Hc; [|reflexivity].
    exfalso. apply (findall_upper (list_ascii_of_string compound)); eauto.
  - intro H. unfold CPython.parse_compound.
    now rewrite findall_no_upper.
Qed.

Lemma parse_compound_value_error (compound : string) (e : py_exn) :
  CPython.parse_compound compound = Raise e ->
  e = ValueError
  /\ exists sym digs,
      In (sym, digs) (findall (list_ascii_of_string compound))
      /\ (CPython.max_str_digits < Z.of_nat (List.length digs))%Z.
Proof.
  rewrite parse_compound_limit.
  destruct (compound_within compound) eqn:Hw; [discriminate|].
  intro H. injection H as <-. split; [reflexivity|].
  now apply compound_beyond.
Qed.

(** C5, as the code has it.  [parse_compound] has no error of format.  It
    returns the empty mapping exactly when the string has no upper-case
    letter, that is, no element token; a character that is neither a letter
    nor a decimal digit is passed over, so that the mapping is built from
    the matches before it followed by the matches after it; and the only
    exception it raises is the [ValueError] of [int] on a count of more
    digits than the limit. *)
Theorem parse_compound_accepts (compound : string) :
  (CPython.parse_compound compound = Ok []
   <-> forall c, In c (list_ascii_of_string compound) -> is_upper c = false)
  /\ (forall s1 c s2,
        list_ascii_of_string compound = (s1 ++ c :: s2)%list ->
        is_upper c = false -> is_lower c = false -> is_digit c = false ->
        CPython.parse_compound compound
        = CPython.dict_of_pairs (findall s1 ++ findall s2)%list)
  /\ forall e,
      CPython.parse_compound compound = Raise e ->
      e = ValueError
      /\ exists sym digs,
          In (sym, digs) (findall (list_ascii_of_string compound))
          /\ (CPython.max_str_digits < Z.of_nat (List.length digs))%Z.
Proof.
  split; [apply parse_compound_empty|]. split.
  - intros s1 c s2 Hs Hu Hl Hd. unfold CPython.parse_compound.
    now rewrite Hs, findall_separator.
  - apply parse_compound_value_error.
Qed.

Lemma parse_compound_accepts_witness :
  CPython.parse_compound "h2o!" = Ok []
  /\ CPython.parse_compound "H2-O"
     = CPython.dict_of_pairs [(["H"%char], ["2"%char]); (["O"%char], [])].
Proof.
  destruct (parse_compound_accepts "h2o!") as [H1 _].
  destruct (parse_compound_accepts "H2-O") as [_ [H2 _]].
  split.
  - apply H1. intros c Hin. simpl in Hin.
    repeat (destruct Hin as [<-|Hin]; [reflexivity|]). contradiction.
  - apply (H2 ["H"%char; "2"%char] "-"%char ["O"%char]); reflexivity.
Defined.

(** C5, as stated, fails: a string without an element token and a string
    with a character that is neither a letter nor a digit both yield a
    mapping. *)
Lemma parse_compound_returns_on_bad_input :
  CPython.parse_compound "h2o!" = Ok []
  /\ CPython.parse_compound "H2-O" = Ok [("H", 2); ("O", 1)]
  /\ CPython.parse_compound EmptyString = Ok [].
Proof. repeat split; vm_compute; reflexivity. Qed.

Lemma dict_set_entries (d : dict) (k k' : string) (v v' : Z) :
  In (k', v') (dict_set d k v) -> In (k', v') d \/ (k', v') = (k, v).
Proof.
  induction d as [|[k0 v0] d IH]; simpl.
  - intros [H|[]]. right. now symmetry.
  - destruct (String.eqb k0 k) eqn:He; simpl.
    + apply String.eqb_eq in He. subst k0.
      intros [H|H]; [right; now symmetry | left; now right].
    + intros [H|H]; [left; now left|].
      destruct (IH H) as [G|G]; [left; now right | now right].
Qed.

Lemma dict_fold_entries (pairs : list (str * str)) (d : dict) (k : string)
  (v : Z) :
  In (k, v)
    (fold_left (fun d ec => dict_set d (string_of_list_ascii (fst ec))
                              (count_of (snd ec))) pairs d) ->
  In (k, v) d \/ exists m, In m pairs /\ entry_of m = (k, v).
Proof.
  revert d. induction pairs as [|p pairs IH]; intro d; simpl; [auto|].
  intro H. destruct (IH _ H) as [G|[m [Hm Hem]]].
  - apply dict_set_entries in G. destruct G as [G|G]; [now left|].
    right. exists p. split; [now left|]. now symmetry.
  - right. exists m. split; [now right | assumption].
Qed.

Lemma digits_fold_zero (ds : str) (acc : Z) :
  0 <= acc -> (forall c, In c ds -> is_digit c = true) ->
  (fold_left (fun a c => 10 * a + digit_val c) ds acc = 0
   <-> acc = 0 /\ forall c, In c ds -> digit_val c = 0)%Z.
Proof.
  revert acc. induction ds as [|c ds IH]; intros acc Hacc Hd;
    cbn [fold_left].
  - split; [intro H; split; [exact H | intros c []] | now intros [H _]].
  - pose proof (digit_val_range c (Hd c (or_introl eq_refl))) as Hc.
    rewrite IH by (try lia; intros; apply Hd; now right). split.
    + intros [H0 Hz]. split; [lia|]. intros x [<-|Hx]; [lia | auto].
    + intros [H0 Hz]. split.
      * rewrite H0, (Hz c) by now left. reflexivity.
      * intros x Hx. apply Hz. now right.
Qed.

Lemma count_of_zero (digs : str) :
  (forall c, In c digs -> is_digit c = true) ->
  (count_of digs = 0
   <-> digs <> [] /\ forall c, In c digs -> digit_val c = 0)%Z.
Proof.
  intro Hd. destruct digs as [|c ds].
  - simpl. split; [discriminate | intros [H _]; now elim H].
  - unfold count_of, int_of_digits.
    rewrite digits_fold_zero by (auto; lia). split.
    + intros [_ H]. split; [discriminate | exact H].
    + intros [_ H]. split; [reflexivity | exact H].
Qed.

(** C9, as the code has it.  Every count in a mapping that [parse_compound]
    returns is a non-negative integer, the count of a match of its key, and
    it is at least 1 unless that count is written with digits that are all
    zero: such a count is kept as an explicit 0. *)
Theorem parse_compound_counts (compound : string) (d : dict)
  (element : string) (count : Z) :
  CPython.parse_compound compound = Ok d ->
  In (element, count) d ->
  0 <= count
  /\ exists sym digs,
      In (sym, digs) (findall (list_ascii_of_string compound))
      /\ element = string_of_list_ascii sym
      /\ count = count_of digs
      /\ (count = 0
          <-> digs <> [] /\ forall c, In c digs -> digit_val c = 0).
Proof.
  intros Hp Hin. apply parse_compound_ok in Hp. destruct Hp as [_ ->].
  unfold parse_compound, dict_of_pairs in Hin.
  apply dict_fold_entries in Hin. destruct Hin as [[]|[[sym digs] [Hm He]]].
  unfold entry_of, symbol_of in He. simpl in He. injection He as <- <-.
  destruct (findall_matches _ _ _ Hm) as [Hd _].
  assert (Hdig : forall c, In c digs -> is_digit c = true)
    by (intros c Hc; now apply Hd).
  split; [now apply count_of_nonneg|].
  exists sym, digs. repeat split; auto; now apply count_of_zero.
Qed.

Lemma parse_compound_counts_witness :
  CPython.parse_compound "C10H22" = Ok [("C", 10); ("H", 22)]
  /\ 0 <= 10
  /\ exists sym digs,
      In (sym, digs) (findall (list_ascii_of_string "C10H22"))
      /\ "C" = string_of_list_ascii sym
      /\ 10 = count_of digs
      /\ (10 = 0 <-> digs <> [] /\ forall c, In c digs -> digit_val c = 0).
Proof.
  split; [vm_compute; reflexivity|].
  apply (parse_compound_counts "C10H22" [("C", 10); ("H", 22)] "C" 10).
  - vm_compute. reflexivity.
  - simpl. auto.
Defined.

(** C9, as stated, fails: the count 0 of ["H0"] is kept under the key. *)
Lemma parse_compound_zero_count :
  CPython.parse_compound "H0" = Ok [("H", 0)].
Proof. vm_compute. reflexivity. Qed.

(** C10, as the code has it.  [parse_compound] raises exactly when a match
    has a count of more digits than the limit of [int], and then
    [ValueError]; on every other string it returns a mapping.  Characters
    before the first upper-case letter, and a character that is neither a
    letter nor a decimal digit, are passed over, so that a string without an
    upper-case letter yields the empty mapping, and only such a string
    does. *)
Theorem parse_compound_skips (prefix compound : string) :
  (forall c, In c (list_ascii_of_string prefix) -> is_upper c = false) ->
  CPython.parse_compound prefix = Ok []
  /\ CPython.parse_compound (prefix ++ compound)
     = CPython.parse_compound compound
  /\ (CPython.parse_compound compound = Raise ValueError
      <-> exists sym digs,
          In (sym, digs) (findall (list_ascii_of_string compound))
          /\ (CPython.max_str_digits < Z.of_nat (List.length digs))%Z)
  /\ (forall e, CPython.parse_compound compound = Raise e -> e = ValueError)
  /\ ((forall sym digs,
         In (sym, digs) (findall (list_ascii_of_string compound)) ->
         (Z.of_nat (List.length digs) <= CPython.max_str_digits)%Z)
      -> exists d, CPython.parse_compound compound = Ok d)
  /\ (forall s1 c s2,
        list_ascii_of_string compound = (s1 ++ c :: s2)%list ->
        is_upper c = false -> is_lower c = false -> is_digit c = false ->
        CPython.parse_compound compound
        = CPython.dict_of_pairs (findall s1 ++ findall s2)%list)
  /\ ((exists c, In c (list_ascii_of_string compound) /\ is_upper c = true)
      -> CPython.parse_compound compound <> Ok [])
  /\ forall fuel,
      (List.length (list_ascii_of_string compound) <= fuel)%nat ->
      findall_from fuel (list_ascii_of_string compound)
      = findall (list_ascii_of_string compound).
Proof.
  intro H. split; [now apply parse_compound_empty|].
  split.
  { unfold CPython.parse_compound.
    now rewrite list_ascii_of_string_app, findall_skip_prefix. }
  split.
  { split.
    - intro Hr. now apply parse_compound_value_error in Hr.
    - intro Hb. apply compound_beyond in Hb.
      now rewrite parse_compound_limit, Hb. }
  split; [intros e He; now apply parse_compound_value_error in He|].
  split.
  { intro Hlen. rewrite parse_compound_limit.
    destruct (compound_within compound) eqn:Hw; [eauto|].
    apply compound_beyond in Hw. destruct Hw as [sym [digs [Hin Hlong]]].
    specialize (Hlen sym digs Hin). lia. }
  split.
  { intros s1 c s2 Hs Hu Hl Hd. unfold CPython.parse_compound.
    now rewrite Hs, findall_separator. }
  split.
  { intros [c [Hin Hc]] He.
    rewrite (proj1 (parse_compound_empty compound) He c Hin) in Hc.
    discriminate Hc. }
  intros fuel Hf. apply findall_from_enough; auto.
Qed.

Lemma parse_compound_skips_witness :
  CPython.parse_compound "2 (aq)-" = Ok []
  /\ CPython.parse_compound ("2 (aq)-" ++ "H2O") = CPython.parse_compound "H2O".
Proof.
  destruct (parse_compound_skips "2 (aq)-" "H2O") as [H1 [H2 _]];
    [|now split].
  intros c Hin. simpl in Hin.
  repeat (destruct Hin as [<-|Hin]; [reflexivity|]). contradiction.
Defined.

(** C10, as stated, fails: on an upper-case letter followed by 4301 digits
    [parse_compound] raises [ValueError]. *)
Lemma parse_compound_raises_on_long_count :
  CPython.parse_compound
    (String "H" (string_of_list_ascii (repeat "1"%char 4301)))
  = Raise ValueError.
Proof. vm_compute. reflexivity. Qed.

End Parser.

(** ** Conservation of the atoms that the formulas hold *)

Section Held.

Local Open Scope string_scope.

Lemma formula_fold_absent (pairs : list (str * str)) (element : string) :
  ~ In element (map symbol_of pairs) ->
  fold_right
    (fun m total =>
       if String.eqb (symbol_of m) element then count_of (snd m) + total
       else total) 0 pairs
  = 0%Z.
Proof.
  induction pairs as [|p pairs IH]; simpl; intro H; [reflexivity|].
  destruct (String.eqb (symbol_of p) element) eqn:He.
  - apply String.eqb_eq in He. tauto.
  - apply IH. tauto.
Qed.

Lemma dict_get_entries (pairs : list (str * str)) (element : string) :
  NoDup (map symbol_of pairs) ->
  dict_get (map entry_of pairs) element 0
  = fold_right
      (fun m total =>
         if String.eqb (symbol_of m) element then count_of (snd m) + total
         else total) 0 pairs.
Proof.
  induction pairs as [|p pairs IH]; simpl; intro H; [reflexivity|].
  inversion H as [|x l Hnot Hrest]; subst.
  destruct (String.eqb (symbol_of p) element) eqn:He.
  - apply String.eqb_eq in He. subst element.
    rewrite formula_fold_absent by exact Hnot. lia.
  - now apply IH.
Qed.

(** Where no symbol matches twice, the mapping of [parse_compound] holds the
    counts of the formula. *)
Lemma formula_count_distinct (compound : string) (element : string) :
  distinct_symbols compound ->
  dict_get (parse_compound compound) element 0
  = formula_count compound element.
Proof.
  intro H. unfold parse_compound, dict_of_pairs, formula_count.
  rewrite dict_fold_distinct by exact H. simpl.
  now apply dict_get_entries.
Qed.

Lemma atoms_held_distinct (element : string) (coeffs : list Z)
  (compounds : list string) :
  (forall c, In c compounds -> distinct_symbols c) ->
  atoms element coeffs compounds = atoms_held element coeffs compounds.
Proof.
  unfold atoms, atoms_held. revert coeffs.
  induction compounds as [|c cs IH]; intros coeffs H.
  - destruct coeffs; reflexivity.
  - destruct coeffs as [|k coeffs]; [reflexivity|].
    cbn [zip_with fold_right].
    rewrite formula_count_distinct by (apply H; now left).
    rewrite IH by (intros; apply H; now right). reflexivity.
Qed.

Lemma atoms_absent (element : string) (coeffs : list Z)
  (compounds : list string) :
  (forall c, In c compounds ->
             ~ In element (dict_keys (parse_compound c))) ->
  atoms element coeffs compounds = 0%Z.
Proof.
  unfold atoms. revert coeffs.
  induction compounds as [|c cs IH]; intros coeffs H.
  - destruct coeffs; reflexivity.
  - destruct coeffs as [|k coeffs]; [reflexivity|].
    cbn [zip_with fold_right].
    rewrite dict_get_absent by (apply H; now left).
    rewrite IH by (intros; apply H; now right). lia.
Qed.

Lemma atoms_outside (element : string) (reactants products : list string)
  (reactant_coeffs product_coeffs : list Z) :
  ~ In element (get_elements reactants products) ->
  atoms element reactant_coeffs reactants = 0%Z
  /\ atoms element product_coeffs products = 0%Z.
Proof.
  intro H.
  assert (Hk : forall c, In c (reactants ++ products)%list ->
                         ~ In element (dict_keys (parse_compound c))).
  { intros c Hc Hin. apply H. unfold get_elements. rewrite sorted_In.
    apply (proj2 (collect_spec (reactants ++ products)%list []) element).
    right. now exists c. }
  split; apply atoms_absent; intros c Hc; apply Hk, in_or_app; auto.
Qed.

(** C1. On ["CH3COOH + O2 -> CO2 + H2O"] the program answers with the
    coefficients 4, 3, 4 and 2, which conserve no element of the reaction:
    the two sides hold 8 and 4 atoms of carbon, 16 and 4 of hydrogen, 14 and
    10 of oxygen.  The matrix is built from the mapping of [parse_compound],
    which keeps for [C], [H] and [O] in ["CH3COOH"] the count of the last
    match only. *)
Theorem balance_loses_repeated_symbols :
  CPython.balance "CH3COOH + O2 -> CO2 + H2O"
  = Ok (Balanced ["CH3COOH"; "O2"] ["CO2"; "H2O"] [4; 3] [4; 2])
  /\ CPython.balance_reaction "CH3COOH + O2 -> CO2 + H2O"
     = Ok "4 CH3COOH + 3 O2 -> 4 CO2 + 2 H2O"
  /\ CPython.get_elements ["CH3COOH"; "O2"] ["CO2"; "H2O"]
     = Ok ["C"; "H"; "O"]
  /\ (atoms_held "C" [4; 3] ["CH3COOH"; "O2"] = 8
      /\ atoms_held "C" [4; 2] ["CO2"; "H2O"] = 4)
  /\ (atoms_held "H" [4; 3] ["CH3COOH"; "O2"] = 16
      /\ atoms_held "H" [4; 2] ["CO2"; "H2O"] = 4)
  /\ (atoms_held "O" [4; 3] ["CH3COOH"; "O2"] = 14
      /\ atoms_held "O" [4; 2] ["CO2"; "H2O"] = 10).
Proof. repeat split; vm_compute; reflexivity. Qed.

(** X20. When no compound of the reaction repeats a symbol, the coefficients
    of a balanced reaction conserve every element: each side has one
    coefficient for each compound, and for every symbol the two sides hold
    the same number of atoms, counted from the formulas. *)
Theorem balance_conserves_distinct (reaction : string)
  (reactants products : list string) (reactant_coeffs product_coeffs : list Z) :
  CPython.balance reaction
  = Ok (Balanced reactants products reactant_coeffs product_coeffs) ->
  (forall c, In c (reactants ++ products)%list -> distinct_symbols c) ->
  List.length reactant_coeffs = List.length reactants
  /\ List.length product_coeffs = List.length products
  /\ forall element,
      atoms_held element reactant_coeffs reactants
      = atoms_held element product_coeffs products.
Proof.
  intros Hb Hd. apply balance_ok in Hb.
  destruct (balanced_conserves_parsed _ _ _ _ _ Hb) as [H1 [H2 H3]].
  split; [exact H1|]. split; [exact H2|]. intro element.
  rewrite <- !atoms_held_distinct
    by (intros; apply Hd; apply in_or_app; auto).
  destruct (in_dec string_dec element (get_elements reactants products))
    as [Hin|Hout].
  - now apply H3.
  - destruct (atoms_outside element reactants products
                reactant_coeffs product_coeffs Hout) as [-> ->].
    reflexivity.
Qed.

Lemma balance_conserves_distinct_witness :
  CPython.balance "Fe + O2 -> Fe2O3"
  = Ok (Balanced ["Fe"; "O2"] ["Fe2O3"] [4; 3] [2])
  /\ forall element,
      atoms_held element [4; 3] ["Fe"; "O2"]
      = atoms_held element [2] ["Fe2O3"].
Proof.
  split; [vm_compute; reflexivity|].
  apply (balance_conserves_distinct "Fe + O2 -> Fe2O3").
  - vm_compute. reflexivity.
  - intros c Hc. simpl in Hc.
    repeat (destruct Hc as [<-|Hc];
            [vm_compute; repeat constructor; simpl; intuition discriminate|]).
    contradiction.
Defined.

(** X14. The answer that a reaction cannot be balanced is right when no
    compound repeats a symbol: if the reaction has an element, then no
    coefficients other than zeros conserve the atoms, counted from the
    formulas, of every element. *)
Theorem cannot_balance_complete (reaction : string)
  (reactants products elements : list string)
  (reactant_coeffs product_coeffs : list Z) :
  parse_reaction reaction = Some (reactants, products) ->
  CPython.balance reaction = Ok CannotBalance ->
  CPython.get_elements reactants products = Ok elements ->
  elements <> [] ->
  (forall c, In c (reactants ++ products)%list -> distinct_symbols c) ->
  List.length reactant_coeffs = List.length reactants ->
  List.length product_coeffs = List.length products ->
  (forall element,
      In element elements ->
      atoms_held element reactant_coeffs reactants
      = atoms_held element product_coeffs products) ->
  forall c, In c (reactant_coeffs ++ product_coeffs)%list -> c = 0%Z.
Proof.
  intros Hp Hb He Hne Hd Hlr Hlp Hcons.
  assert (Hw : forallb compound_within (reactants ++ products)%list = true)
    by (apply (balance_within reaction); eauto).
  rewrite get_elements_limit, Hw in He. injection He as <-.
  apply (cannot_balance_parsed reaction reactants products); auto.
  - now apply balance_ok.
  - intros element Hin.
    rewrite !atoms_held_distinct
      by (intros; apply Hd; apply in_or_app; auto).
    now apply Hcons.
Qed.

Lemma cannot_balance_complete_witness :
  CPython.balance "H2 -> O2" = Ok CannotBalance
  /\ forall c, In c ([0] ++ [0])%list -> c = 0%Z.
Proof.
  split; [vm_compute; reflexivity|].
  apply (cannot_balance_complete "H2 -> O2" ["H2"] ["O2"] ["H"; "O"]
           [0%Z] [0%Z]); try (vm_compute; reflexivity).
  - discriminate.
  - intros c Hc. simpl in Hc.
    repeat (destruct Hc as [<-|Hc];
            [vm_compute; repeat constructor; simpl; intuition discriminate|]).
    contradiction.
Defined.

End Held.

(** ** The exceptions of [balance_reaction] *)

Section Raising.

Local Open Scope string_scope.

(** X12. [balance_reaction] raises nothing but the [ValueError] of a
    conversion beyond the limit.  Up to the formatting of its answer, it
    answers that the format is wrong exactly when the string does not parse;
    on a string that parses it raises exactly when a count of one of the
    compounds has more digits than the limit, and otherwise it returns. *)
Theorem balance_reaction_exceptions (reaction : string) :
  (forall e, CPython.balance_reaction reaction = Raise e -> e = ValueError)
  /\ (CPython.balance reaction = Ok InvalidFormat
      <-> parse_reaction reaction = None)
  /\ forall reactants products,
      parse_reaction reaction = Some (reactants, products) ->
      (CPython.balance reaction = Raise ValueError
       <-> exists compound sym digs,
           In compound (reactants ++ products)%list
           /\ In (sym, digs) (findall (list_ascii_of_string compound))
           /\ (CPython.max_str_digits < Z.of_nat (List.length digs))%Z)
      /\ ((exists o, CPython.balance reaction = Ok o)
          \/ CPython.balance reaction = Raise ValueError).
Proof.
  split; [apply balance_reaction_raises_value_error|]. split.
  - split.
    + intro H. apply balance_ok in H.
      pose proof (balance_cases reaction) as Hc.
      destruct (parse_reaction reaction) as [[rs ps]|]; [|reflexivity].
      cbv zeta in Hc.
      destruct (nullspace _); rewrite Hc in H; discriminate H.
    + intro H. rewrite balance_limit, H. reflexivity.
  - intros rs ps Hp. rewrite balance_limit, Hp.
    destruct (forallb compound_within (rs ++ ps)%list) eqn:Hw.
    + split.
      * destruct (balance_never_raises_aux reaction) as [o Ho]. rewrite Ho.
        split; [discriminate|].
        intros [compound [sym [digs [Hc Hm]]]]. exfalso.
        rewrite forallb_forall in Hw. specialize (Hw compound Hc).
        assert (Hb : compound_within compound = false)
          by (apply compound_beyond; eauto).
        congruence.
      * left. apply balance_never_raises_aux.
    + split; [|now right]. split; [|reflexivity]. intros _.
      apply forallb_false in Hw. destruct Hw as [compound [Hc Hb]].
      apply compound_beyond in Hb. destruct Hb as [sym [digs Hm]].
      exists compound, sym, digs. tauto.
Qed.

(** [balance_reaction] on a count of 4301 digits. *)
Lemma balance_reaction_long_count :
  CPython.balance_reaction
    (String "H" (string_of_list_ascii (repeat "1"%char 4301)) ++ " -> H")
  = Raise ValueError.
Proof. vm_compute. reflexivity. Qed.

End Raising.

(** ** The interactive loop *)

Section Session.

Local Open Scope string_scope.

Lemma loop_answers (before : list string) (rest : list string) :
  (forall line, In line before -> is_exit (stripped line) = false) ->
  (forall line, In line before ->
                exists result,
                  CPython.balance_reaction (stripped line) = Ok result) ->
  CPython.loop (before ++ rest)%list
  = (flat_map answer before ++ fst (CPython.loop rest),
     snd (CPython.loop rest))%list.
Proof.
  induction before as [|line before IH]; intros H Hr; simpl.
  - now destruct (CPython.loop rest).
  - rewrite (H line) by now left.
    destruct (Hr line (or_introl eq_refl)) as [result Hres].
    unfold answer. rewrite Hres.
    rewrite IH;
      [reflexivity | intros; apply H; now right | intros; apply Hr; now right].
Qed.

(** X18. The program stops at the first line that, stripped and in lower
    case, is [exit] or [quit], when [balance_reaction] has returned on each
    line before it: it has then answered each of these lines, says that it
    stops, and does not read the lines after it. *)
Theorem main_stops_at_exit (before after : list string) (line : string) :
  (forall l, In l before -> is_exit (stripped l) = false) ->
  (forall l, In l before ->
             exists result, CPython.balance_reaction (stripped l) = Ok result) ->
  is_exit (stripped line) = true ->
  CPython.main (before ++ line :: after)%list
  = (Printed "Chemical Reaction Balancer"
     :: Printed "Enter a chemical reaction to balance (e.g., H2 + O2 -> H2O):"
     :: flat_map answer before
     ++ [prompt; Printed "Program stopped."],
     Finished)%list.
Proof.
  intros Hb Hr Hl. unfold CPython.main.
  rewrite (loop_answers before _ Hb Hr).
  simpl. rewrite Hl. reflexivity.
Qed.

Lemma main_stops_at_exit_witness :
  CPython.main ["H2 + O2 -> H2O"; "  Quit "; "Fe + O2 -> Fe2O3"]
  = ([Printed "Chemical Reaction Balancer";
      Printed "Enter a chemical reaction to balance (e.g., H2 + O2 -> H2O):";
      prompt; Printed "Balanced Reaction: 2 H2 + 1 O2 -> 2 H2O";
      prompt; Printed "Program stopped."], Finished).
Proof.
  change ["H2 + O2 -> H2O"; "  Quit "; "Fe + O2 -> Fe2O3"]
    with (["H2 + O2 -> H2O"] ++ "  Quit " :: ["Fe + O2 -> Fe2O3"])%list.
  rewrite (main_stops_at_exit ["H2 + O2 -> H2O"] ["Fe + O2 -> Fe2O3"] "  Quit ").
  - vm_compute. reflexivity.
  - intros l [<-|[]]. vm_compute. reflexivity.
  - intros l [<-|[]]. eexists. vm_compute. reflexivity.
  - vm_compute. reflexivity.
Defined.

Lemma loop_failed (lines : list string) (e : py_exn) :
  snd (CPython.loop lines) = Failed e -> e = ValueError.
Proof.
  induction lines as [|line lines IH]; simpl; [discriminate|].
  destruct (is_exit (stripped line)); [discriminate|].
  destruct (CPython.balance_reaction (stripped line)) as [result|e'] eqn:Hr.
  - destruct (CPython.loop lines) as [out e'']. exact IH.
  - simpl. intro H. injection H as <-.
    now apply balance_reaction_raises_value_error in Hr.
Qed.

(** X19. Without a request to stop, the program answers the lines on which
    [balance_reaction] returns and ends when [input] finds no line left; a
    line on which [balance_reaction] raises ends it at once, with nothing
    written after the prompt; and the only exception that ends the program
    is the [ValueError] of a conversion beyond the limit. *)
Theorem main_end_of_input (before after : list string) (line : string) :
  (forall l, In l before -> is_exit (stripped l) = false) ->
  (forall l, In l before ->
             exists result, CPython.balance_reaction (stripped l) = Ok result) ->
  CPython.main before
  = (Printed "Chemical Reaction Balancer"
     :: Printed "Enter a chemical reaction to balance (e.g., H2 + O2 -> H2O):"
     :: flat_map answer before ++ [prompt],
     EndOfInput)%list
  /\ (is_exit (stripped line) = false ->
      forall e,
        CPython.balance_reaction (stripped line) = Raise e ->
        CPython.main (before ++ line :: after)%list
        = (Printed "Chemical Reaction Balancer"
           :: Printed "Enter a chemical reaction to balance (e.g., H2 + O2 -> H2O):"
           :: flat_map answer before ++ [prompt],
           Failed ValueError)%list)
  /\ forall lines e, snd (CPython.main lines) = Failed e -> e = ValueError.
Proof.
  intros Hb Hr. split; [|split].
  - unfold CPython.main.
    rewrite <- (app_nil_r before) at 1.
    rewrite (loop_answers before [] Hb Hr). reflexivity.
  - intros Hl e He. unfold CPython.main.
    rewrite (loop_answers before _ Hb Hr). simpl. rewrite Hl, He.
    rewrite (balance_reaction_raises_value_error _ _ He). reflexivity.
  - intros lines e. unfold CPython.main.
    pose proof (loop_failed lines e) as H.
    destruct (CPython.loop lines) as [out e']. exact H.
Qed.

Lemma main_end_of_input_witness :
  CPython.main ["H2 + O2 -> H2O"; "H2 -> O2"]
  = ([Printed "Chemical Reaction Balancer";
      Printed "Enter a chemical reaction to balance (e.g., H2 + O2 -> H2O):";
      prompt; Printed "Balanced Reaction: 2 H2 + 1 O2 -> 2 H2O";
      prompt; Printed "Balanced Reaction: This reaction cannot be balanced.";
      prompt], EndOfInput).
Proof.
  destruct (main_end_of_input ["H2 + O2 -> H2O"; "H2 -> O2"] [] EmptyString)
    as [H _].
  - intros l [<-|[<-|[]]]; vm_compute; reflexivity.
  - intros l [<-|[<-|[]]]; eexists; vm_compute; reflexivity.
  - rewrite H. vm_compute. reflexivity.
Defined.

End Session.
